(** * The schema-driven JSON decode interpreter [FromJsonObjectSchema]

    A shallow embedding of the inline methods of class
    [awkward::FromJsonObjectSchema] (awkward-cpp/include/awkward/io/json.h)
    and the properties its specification states about them.

    Conventions of the embedding.
    - [int64_t] values are integers [Z]; arithmetic that the source performs
      on them is written with its two's-complement wrap-around ([add64],
      [sub64], [mul64]); casts are [to_int64], [to_size_t], [to_uint8].
    - A [std::vector<T>] is a [list T].  Reading or writing outside of it,
      through [operator[]] or through [data()], has no defined behaviour in
      C++; the embedding makes it an error ([None]).
    - Every method is a computation in the monad [M]: it receives the
      object, may fail (undefined behaviour), and returns a result with the
      object as the method leaves it. *)

From stdpp Require Import base numbers list strings option.
From Stdlib Require Import ZArith Lia Ascii.

Local Open Scope Z_scope.

(** ** Fixed-width integers *)

Definition int64_min : Z := - 2 ^ 63.
Definition int64_max : Z := 2 ^ 63 - 1.

Definition is_int64 (z : Z) : Prop := int64_min ≤ z ≤ int64_max.

(** [static_cast<int64_t>]: reduction modulo 2^64 into the signed range. *)
Definition to_int64 (z : Z) : Z := (z + 2 ^ 63) mod 2 ^ 64 - 2 ^ 63.

(** [(size_t)]: reduction modulo 2^64 into the unsigned range. *)
Definition to_size_t (z : Z) : Z := z mod 2 ^ 64.

(** The [uint8_t] that shares its bit pattern with an [int8_t]. *)
Definition to_uint8 (z : Z) : Z := z mod 256.

Definition add64 (a b : Z) : Z := to_int64 (a + b).
Definition sub64 (a b : Z) : Z := to_int64 (a - b).
Definition mul64 (a b : Z) : Z := to_int64 (a * b).

(** ** Vectors *)

(** [v[i]] for an index that is already unsigned. *)
Definition at_ {A : Type} (v : list A) (i : Z) : option A :=
  if bool_decide (0 ≤ i < Z.of_nat (length v)) then v !! Z.to_nat i else None.

(** [v[i] = x]. *)
Definition set_at {A : Type} (v : list A) (i : Z) (x : A) : option (list A) :=
  if bool_decide (0 ≤ i < Z.of_nat (length v))
  then Some (<[Z.to_nat i := x]> v) else None.

(** [v.data()[i]] with a signed index [i]. *)
Definition data_at {A : Type} (v : list A) (i : Z) : option A := at_ v i.

(** [v[(size_t)i]]. *)
Definition vec_at {A : Type} (v : list A) (i : Z) : option A :=
  at_ v (to_size_t i).

Definition vec_set {A : Type} (v : list A) (i : Z) (x : A) : option (list A) :=
  set_at v (to_size_t i) x.

(** [&p[i]] for [p = v.data()]: the memory from element [i] to the end of
    the vector; the one-past-the-end pointer is allowed. *)
Definition ptr_at {A : Type} (v : list A) (i : Z) : option (list A) :=
  if bool_decide (0 ≤ i ≤ Z.of_nat (length v))
  then Some (drop (Z.to_nat i) v) else None.

(** ** C strings *)

Definition uchar (c : ascii) : Z := Z.of_N (Ascii.N_of_ascii c).

(** [strncmp(s1, s2, n)].  [s1] is a NUL-terminated C string: its characters
    up to the first NUL, or all of them, with the terminator implicit.  [s2]
    is the memory from the second pointer to the end of the vector it points
    into; reading past it is an error.  The comparison is on [unsigned char]
    and stops after [n] characters, at the first difference, or after a NUL. *)
Fixpoint strncmp (s1 : string) (s2 : list ascii) (n : Z) : option Z :=
  if n =? 0 then Some 0 else
  match s2 with
  | [] => None
  | c2 :: s2' =>
    match s1 with
    | String.EmptyString => Some (0 - uchar c2)
    | String.String c1 s1' =>
      if uchar c1 =? uchar c2
      then (if uchar c1 =? 0 then Some 0 else strncmp s1' s2' (n - 1))
      else Some (uchar c1 - uchar c2)
    end
  end.

(** ** Primitive element types and growable buffers *)

(** The element types the buffers are instantiated at, with their width and
    their object representation (little-endian bytes), which is what
    [concatenate] copies out. *)
Class Primitive (T : Type) := {
  sizeof : Z;
  object_bytes : T → list Z
}.

Fixpoint le_bytes (n : nat) (z : Z) : list Z :=
  match n with
  | O => []
  | S n' => z mod 256 :: le_bytes n' (z / 256)
  end.

(** A [double] is carried as its 64-bit IEEE-754 pattern: the interpreter
    stores and copies doubles and never computes with them. *)
Record double : Type := Double { double_bits : Z }.

Definition uint8_t : Type := Z.
Definition int64_t : Type := Z.

(** Both are integers; instance resolution tells them apart by name. *)
Global Typeclasses Opaque uint8_t int64_t.

Global Instance uint8_primitive : Primitive uint8_t :=
  {| sizeof := 1; object_bytes := le_bytes 1 |}.
Global Instance int64_primitive : Primitive int64_t :=
  {| sizeof := 8; object_bytes := le_bytes 8 |}.
Global Instance double_primitive : Primitive double :=
  {| sizeof := 8; object_bytes := λ d, le_bytes 8 (double_bits d) |}.

(** Modelled from the spec: class template [GrowableBuffer<T>]
    (awkward/GrowableBuffer.h is not among the sources).  The spec describes
    an append-only contiguous store of one primitive element kind with
    append-one, append-many, last-element peek, a byte-size query derived
    from the store length and the element width, and "concatenate into
    caller memory", which copies the whole contents to the start of a
    caller-owned region without resizing it. *)
Record GrowableBuffer (T : Type) : Type := Buffer { elements : list T }.
Arguments Buffer {T} _.
Arguments elements {T} _.

Module GrowableBuffer.
Section Ops.
Context {T : Type} `{Primitive T}.

(** Modelled from the spec: [append(x)], append-one; the elements already
    stored keep their places. *)
Definition append (b : GrowableBuffer T) (x : T) : GrowableBuffer T :=
  Buffer (elements b ++ [x]).

(** Modelled from the spec: [extend(ptr, size)], append-many: copies a run
    of [size] elements; [values] is the memory at [ptr]. *)
Definition extend (b : GrowableBuffer T) (values : list T) (size : Z)
  : option (GrowableBuffer T) :=
  if bool_decide (0 ≤ size ≤ Z.of_nat (length values))
  then Some (Buffer (elements b ++ take (Z.to_nat size) values))
  else None.

(** Modelled from the spec: [last()], the most recently appended element;
    there is none in an empty buffer. *)
Definition last (b : GrowableBuffer T) : option T :=
  List.last (map Some (elements b)) None.

(** Modelled from the spec: [nbytes()], the byte size, derived from the
    store length and the element width. *)
Definition nbytes (b : GrowableBuffer T) : Z :=
  Z.of_nat (length (elements b)) * sizeof.

(** The bytes of the store. *)
Definition contents_bytes (b : GrowableBuffer T) : list Z :=
  flat_map object_bytes (elements b).

(** Modelled from the spec: [concatenate(external_pointer)] copies the
    entire contents to the start of the caller's region, which it neither
    resizes nor reads; [ext] is the memory at the pointer, and a region
    shorter than the contents is an error. *)
Definition concatenate (b : GrowableBuffer T) (ext : list Z)
  : option (list Z) :=
  let bs := contents_bytes b in
  if bool_decide (length bs ≤ length ext)%nat
  then Some (bs ++ drop (length bs) ext) else None.
End Ops.
End GrowableBuffer.

(** Modelled from the spec: [util::dtype] (awkward/util.h is not among the
    sources).  The four element kinds the interpreter dispatches on, and any
    other tag of the enumeration. *)
Inductive dtype : Type :=
| dtype_int8
| dtype_uint8
| dtype_int64
| dtype_float64
| dtype_other (tag : Z).

(** ** The interpreter object *)

Record FromJsonObjectSchema : Type := {
  instructions_ : list Z;
  characters_ : list ascii;
  string_offsets_ : list Z;
  output_names_ : list string;
  output_dtypes_ : list dtype;
  output_which_ : list Z;
  buffers_uint8_ : list (GrowableBuffer uint8_t);
  buffers_int64_ : list (GrowableBuffer int64_t);
  buffers_float64_ : list (GrowableBuffer double);
  current_instruction_ : Z;
  instruction_stack_ : list Z;
  current_stack_depth_ : Z;
  counters_ : list Z;
  length_ : Z
}.

Definition with_buffers_uint8 (bs : list (GrowableBuffer uint8_t))
  (s : FromJsonObjectSchema) : FromJsonObjectSchema :=
  {| instructions_ := instructions_ s; characters_ := characters_ s;
     string_offsets_ := string_offsets_ s; output_names_ := output_names_ s;
     output_dtypes_ := output_dtypes_ s; output_which_ := output_which_ s;
     buffers_uint8_ := bs; buffers_int64_ := buffers_int64_ s;
     buffers_float64_ := buffers_float64_ s;
     current_instruction_ := current_instruction_ s;
     instruction_stack_ := instruction_stack_ s;
     current_stack_depth_ := current_stack_depth_ s;
     counters_ := counters_ s; length_ := length_ s |}.

Definition with_buffers_int64 (bs : list (GrowableBuffer int64_t))
  (s : FromJsonObjectSchema) : FromJsonObjectSchema :=
  {| instructions_ := instructions_ s; characters_ := characters_ s;
     string_offsets_ := string_offsets_ s; output_names_ := output_names_ s;
     output_dtypes_ := output_dtypes_ s; output_which_ := output_which_ s;
     buffers_uint8_ := buffers_uint8_ s; buffers_int64_ := bs;
     buffers_float64_ := buffers_float64_ s;
     current_instruction_ := current_instruction_ s;
     instruction_stack_ := instruction_stack_ s;
     current_stack_depth_ := current_stack_depth_ s;
     counters_ := counters_ s; length_ := length_ s |}.

Definition with_buffers_float64 (bs : list (GrowableBuffer double))
  (s : FromJsonObjectSchema) : FromJsonObjectSchema :=
  {| instructions_ := instructions_ s; characters_ := characters_ s;
     string_offsets_ := string_offsets_ s; output_names_ := output_names_ s;
     output_dtypes_ := output_dtypes_ s; output_which_ := output_which_ s;
     buffers_uint8_ := buffers_uint8_ s; buffers_int64_ := buffers_int64_ s;
     buffers_float64_ := bs;
     current_instruction_ := current_instruction_ s;
     instruction_stack_ := instruction_stack_ s;
     current_stack_depth_ := current_stack_depth_ s;
     counters_ := counters_ s; length_ := length_ s |}.

Definition with_current_instruction (c : Z)
  (s : FromJsonObjectSchema) : FromJsonObjectSchema :=
  {| instructions_ := instructions_ s; characters_ := characters_ s;
     string_offsets_ := string_offsets_ s; output_names_ := output_names_ s;
     output_dtypes_ := output_dtypes_ s; output_which_ := output_which_ s;
     buffers_uint8_ := buffers_uint8_ s; buffers_int64_ := buffers_int64_ s;
     buffers_float64_ := buffers_float64_ s;
     current_instruction_ := c;
     instruction_stack_ := instruction_stack_ s;
     current_stack_depth_ := current_stack_depth_ s;
     counters_ := counters_ s; length_ := length_ s |}.

Definition with_instruction_stack (st : list Z)
  (s : FromJsonObjectSchema) : FromJsonObjectSchema :=
  {| instructions_ := instructions_ s; characters_ := characters_ s;
     string_offsets_ := string_offsets_ s; output_names_ := output_names_ s;
     output_dtypes_ := output_dtypes_ s; output_which_ := output_which_ s;
     buffers_uint8_ := buffers_uint8_ s; buffers_int64_ := buffers_int64_ s;
     buffers_float64_ := buffers_float64_ s;
     current_instruction_ := current_instruction_ s;
     instruction_stack_ := st;
     current_stack_depth_ := current_stack_depth_ s;
     counters_ := counters_ s; length_ := length_ s |}.

Definition with_current_stack_depth (d : Z)
  (s : FromJsonObjectSchema) : FromJsonObjectSchema :=
  {| instructions_ := instructions_ s; characters_ := characters_ s;
     string_offsets_ := string_offsets_ s; output_names_ := output_names_ s;
     output_dtypes_ := output_dtypes_ s; output_which_ := output_which_ s;
     buffers_uint8_ := buffers_uint8_ s; buffers_int64_ := buffers_int64_ s;
     buffers_float64_ := buffers_float64_ s;
     current_instruction_ := current_instruction_ s;
     instruction_stack_ := instruction_stack_ s;
     current_stack_depth_ := d;
     counters_ := counters_ s; length_ := length_ s |}.

Definition with_counters (cs : list Z)
  (s : FromJsonObjectSchema) : FromJsonObjectSchema :=
  {| instructions_ := instructions_ s; characters_ := characters_ s;
     string_offsets_ := string_offsets_ s; output_names_ := output_names_ s;
     output_dtypes_ := output_dtypes_ s; output_which_ := output_which_ s;
     buffers_uint8_ := buffers_uint8_ s; buffers_int64_ := buffers_int64_ s;
     buffers_float64_ := buffers_float64_ s;
     current_instruction_ := current_instruction_ s;
     instruction_stack_ := instruction_stack_ s;
     current_stack_depth_ := current_stack_depth_ s;
     counters_ := cs; length_ := length_ s |}.

Definition with_length (n : Z)
  (s : FromJsonObjectSchema) : FromJsonObjectSchema :=
  {| instructions_ := instructions_ s; characters_ := characters_ s;
     string_offsets_ := string_offsets_ s; output_names_ := output_names_ s;
     output_dtypes_ := output_dtypes_ s; output_which_ := output_which_ s;
     buffers_uint8_ := buffers_uint8_ s; buffers_int64_ := buffers_int64_ s;
     buffers_float64_ := buffers_float64_ s;
     current_instruction_ := current_instruction_ s;
     instruction_stack_ := instruction_stack_ s;
     current_stack_depth_ := current_stack_depth_ s;
     counters_ := counters_ s; length_ := n |}.

(** ** The method monad *)

Definition M (A : Type) : Type :=
  FromJsonObjectSchema → option (A * FromJsonObjectSchema).

Global Instance M_ret : MRet M := λ A a s, Some (a, s).
Global Instance M_bind : MBind M := λ A B f m s,
  match m s with
  | Some (a, s') => f a s'
  | None => None
  end.

Global Instance M_fmap : FMap M := λ A B f m s,
  match m s with
  | Some (a, s') => Some (f a, s')
  | None => None
  end.

(** Read a member. *)
Definition member {A : Type} (f : FromJsonObjectSchema → A) : M A :=
  λ s, Some (f s, s).

(** Replace the object by [f] of it. *)
Definition update (f : FromJsonObjectSchema → FromJsonObjectSchema) : M unit :=
  λ s, Some (tt, f s).

(** An access that C++ leaves undefined when the option is [None]. *)
Definition defined {A : Type} (o : option A) : M A :=
  λ s, match o with Some a => Some (a, s) | None => None end.

(** The object itself. *)
Definition this : M FromJsonObjectSchema := λ s, Some (s, s).

(** ** Methods of [FromJsonObjectSchema], in the order of json.h *)

Definition current_stack_depth : M Z := member current_stack_depth_.

Definition current_instruction : M Z := member current_instruction_.

Definition instruction : M Z :=
  s ← this;
  defined (data_at (instructions_ s) (mul64 (current_instruction_ s) 4)).

Definition argument1 : M Z :=
  s ← this;
  defined (data_at (instructions_ s)
             (add64 (mul64 (current_instruction_ s) 4) 1)).

Definition argument2 : M Z :=
  s ← this;
  defined (data_at (instructions_ s)
             (add64 (mul64 (current_instruction_ s) 4) 2)).

Definition argument3 : M Z :=
  s ← this;
  defined (data_at (instructions_ s)
             (add64 (mul64 (current_instruction_ s) 4) 3)).

Definition step_forward : M unit :=
  update (λ s, with_current_instruction (add64 (current_instruction_ s) 1) s).

Definition step_backward : M unit :=
  update (λ s, with_current_instruction (sub64 (current_instruction_ s) 1) s).

Definition push_stack (jump_to : Z) : M unit :=
  s ← this;
  stack ← defined (set_at (instruction_stack_ s) (current_stack_depth_ s)
                     (current_instruction_ s));
  update (with_instruction_stack stack);;
  update (λ s, with_current_stack_depth (add64 (current_stack_depth_ s) 1) s);;
  update (with_current_instruction jump_to).

Definition pop_stack : M unit :=
  update (λ s, with_current_stack_depth (sub64 (current_stack_depth_ s) 1) s);;
  s ← this;
  saved ← defined (data_at (instruction_stack_ s) (current_stack_depth_ s));
  update (with_current_instruction saved).

(** The test of both lookup loops:
    [strncmp(str, &chars[start], (size_t)(stop - start)) == 0]. *)
Definition symbol_matches (str : string) (start stop : Z) : M bool :=
  s ← this;
  sym ← defined (ptr_at (characters_ s) start);
  c ← defined (strncmp str sym (to_size_t (sub64 stop start)));
  mret (bool_decide (c = 0)).

(** The [for] loop of [find_enum], entered at index [i].  [fuel] bounds the
    number of times the loop test is evaluated. *)
Fixpoint find_enum_loop (fuel : nat) (str : string) (stringsstart i : Z)
  : M Z :=
  match fuel with
  | O => defined None
  | S fuel' =>
    bound ← argument3;
    if bool_decide (i < bound) then
      s ← this;
      start ← defined (data_at (string_offsets_ s) i);
      stop ← defined (data_at (string_offsets_ s) (add64 i 1));
      found ← symbol_matches str start stop;
      if found : bool then mret (sub64 i stringsstart)
      else find_enum_loop fuel' str stringsstart (add64 i 1)
    else mret (-1)
  end.

Definition find_enum (str : string) : M Z :=
  stringsstart ← argument2;
  bound ← argument3;
  find_enum_loop (S (Z.to_nat (bound - stringsstart))) str
    stringsstart stringsstart.

(** The [for] loop of [find_key], entered at instruction [i]. *)
Fixpoint find_key_loop (fuel : nat) (str : string) (i : Z) : M Z :=
  match fuel with
  | O => defined None
  | S fuel' =>
    s ← this;
    count ← argument1;
    if bool_decide (i ≤ add64 (current_instruction_ s) count) then
      stringi ← defined (data_at (instructions_ s) (add64 (mul64 i 4) 1));
      start ← defined (data_at (string_offsets_ s) stringi);
      stop ← defined (data_at (string_offsets_ s) (add64 stringi 1));
      found ← symbol_matches str start stop;
      if found : bool
      then defined (data_at (instructions_ s) (add64 (mul64 i 4) 2))
      else find_key_loop fuel' str (add64 i 1)
    else mret (-1)
  end.

Definition find_key (str : string) : M Z :=
  s ← this;
  count ← argument1;
  let first := add64 (current_instruction_ s) 1 in
  let final := add64 (current_instruction_ s) count in
  find_key_loop (S (Z.to_nat (final - first + 1))) str first.

Definition write_int8 (index : Z) (x : Z) : M unit :=
  s ← this;
  b ← defined (vec_at (buffers_uint8_ s) index);
  bs ← defined (vec_set (buffers_uint8_ s) index
                  (GrowableBuffer.append b (to_uint8 x)));
  update (with_buffers_uint8 bs).

Definition write_uint8 (index : Z) (x : Z) : M unit :=
  s ← this;
  b ← defined (vec_at (buffers_uint8_ s) index);
  bs ← defined (vec_set (buffers_uint8_ s) index (GrowableBuffer.append b x));
  update (with_buffers_uint8 bs).

Definition write_many_uint8 (index : Z) (num_items : Z) (values : list Z)
  : M unit :=
  s ← this;
  b ← defined (vec_at (buffers_uint8_ s) index);
  b' ← defined (GrowableBuffer.extend b values (to_size_t num_items));
  bs ← defined (vec_set (buffers_uint8_ s) index b');
  update (with_buffers_uint8 bs).

Definition write_int64 (index : Z) (x : Z) : M unit :=
  s ← this;
  b ← defined (vec_at (buffers_int64_ s) index);
  bs ← defined (vec_set (buffers_int64_ s) index (GrowableBuffer.append b x));
  update (with_buffers_int64 bs).

Definition write_uint64 (index : Z) (x : Z) : M unit :=
  s ← this;
  b ← defined (vec_at (buffers_int64_ s) index);
  bs ← defined (vec_set (buffers_int64_ s) index
                  (GrowableBuffer.append b (to_int64 x)));
  update (with_buffers_int64 bs).

Definition write_add_int64 (index : Z) (x : Z) : M unit :=
  s ← this;
  b ← defined (vec_at (buffers_int64_ s) index);
  v ← defined (GrowableBuffer.last b);
  bs ← defined (vec_set (buffers_int64_ s) index
                  (GrowableBuffer.append b (add64 v x)));
  update (with_buffers_int64 bs).

Definition write_float64 (index : Z) (x : double) : M unit :=
  s ← this;
  b ← defined (vec_at (buffers_float64_ s) index);
  bs ← defined (vec_set (buffers_float64_ s) index (GrowableBuffer.append b x));
  update (with_buffers_float64 bs).

Definition get_and_increment (index : Z) : M Z :=
  s ← this;
  old ← defined (vec_at (counters_ s) index);
  cs ← defined (vec_set (counters_ s) index (add64 old 1));
  update (with_counters cs);;
  mret old.

Definition length : M Z := member length_.

Definition add_to_length (n : Z) : M unit :=
  update (λ s, with_length (add64 (length_ s) n) s).

Definition num_outputs : M Z :=
  s ← this;
  mret (to_int64 (Z.of_nat (List.length (output_names_ s)))).

Definition output_name (i : Z) : M string :=
  s ← this;
  defined (vec_at (output_names_ s) i).

Definition output_dtype (i : Z) : M string :=
  s ← this;
  d ← defined (vec_at (output_dtypes_ s) i);
  match d with
  | dtype_int8 => mret "int8"%string
  | dtype_uint8 => mret "uint8"%string
  | dtype_int64 => mret "int64"%string
  | dtype_float64 => mret "float64"%string
  | dtype_other _ => mret "unknown"%string
  end.

Definition output_num_items (i : Z) : M Z :=
  s ← this;
  d ← defined (vec_at (output_dtypes_ s) i);
  match d with
  | dtype_int8 =>
    which ← defined (vec_at (output_which_ s) i);
    b ← defined (vec_at (buffers_uint8_ s) which);
    mret (to_int64 (GrowableBuffer.nbytes (T:=uint8_t) b))
  | dtype_uint8 =>
    which ← defined (vec_at (output_which_ s) i);
    b ← defined (vec_at (buffers_uint8_ s) which);
    mret (to_int64 (GrowableBuffer.nbytes (T:=uint8_t) b))
  | dtype_int64 =>
    which ← defined (vec_at (output_which_ s) i);
    b ← defined (vec_at (buffers_int64_ s) which);
    mret (Z.quot (to_int64 (GrowableBuffer.nbytes (T:=int64_t) b)) 8)
  | dtype_float64 =>
    which ← defined (vec_at (output_which_ s) i);
    b ← defined (vec_at (buffers_float64_ s) which);
    mret (Z.quot (to_int64 (GrowableBuffer.nbytes (T:=double) b)) 8)
  | dtype_other _ => mret (-1)
  end.

(** [output_fill(i, external_pointer)]: [ext] is the caller's memory at
    [external_pointer], a sequence of bytes; the result is that memory after
    the call. *)
Definition output_fill (i : Z) (ext : list Z) : M (list Z) :=
  s ← this;
  d ← defined (vec_at (output_dtypes_ s) i);
  match d with
  | dtype_int8 =>
    which ← defined (vec_at (output_which_ s) i);
    b ← defined (vec_at (buffers_uint8_ s) which);
    defined (GrowableBuffer.concatenate (T:=uint8_t) b ext)
  | dtype_uint8 =>
    which ← defined (vec_at (output_which_ s) i);
    b ← defined (vec_at (buffers_uint8_ s) which);
    defined (GrowableBuffer.concatenate (T:=uint8_t) b ext)
  | dtype_int64 =>
    which ← defined (vec_at (output_which_ s) i);
    b ← defined (vec_at (buffers_int64_ s) which);
    defined (GrowableBuffer.concatenate (T:=int64_t) b ext)
  | dtype_float64 =>
    which ← defined (vec_at (output_which_ s) i);
    b ← defined (vec_at (buffers_float64_ s) which);
    defined (GrowableBuffer.concatenate (T:=double) b ext)
  | dtype_other _ => mret ext
  end.

(** ** The driver's view: one call of a primitive *)

Inductive call : Type :=
| call_current_stack_depth
| call_current_instruction
| call_instruction
| call_argument1
| call_argument2
| call_argument3
| call_step_forward
| call_step_backward
| call_push_stack (jump_to : Z)
| call_pop_stack
| call_find_enum (str : string)
| call_find_key (str : string)
| call_write_int8 (index x : Z)
| call_write_uint8 (index x : Z)
| call_write_many_uint8 (index num_items : Z) (values : list Z)
| call_write_int64 (index x : Z)
| call_write_uint64 (index x : Z)
| call_write_add_int64 (index x : Z)
| call_write_float64 (index : Z) (x : double)
| call_get_and_increment (index : Z)
| call_length
| call_add_to_length (n : Z)
| call_num_outputs
| call_output_name (i : Z)
| call_output_dtype (i : Z)
| call_output_num_items (i : Z)
| call_output_fill (i : Z) (ext : list Z).

(** What a call hands back to the driver. *)
Inductive result : Type :=
| result_void
| result_int (z : Z)
| result_string (str : string)
| result_memory (ext : list Z).

Definition void (m : M unit) : M result := m;; mret result_void.

Definition exec (c : call) : M result :=
  match c with
  | call_current_stack_depth => result_int <$> current_stack_depth
  | call_current_instruction => result_int <$> current_instruction
  | call_instruction => result_int <$> instruction
  | call_argument1 => result_int <$> argument1
  | call_argument2 => result_int <$> argument2
  | call_argument3 => result_int <$> argument3
  | call_step_forward => void step_forward
  | call_step_backward => void step_backward
  | call_push_stack jump_to => void (push_stack jump_to)
  | call_pop_stack => void pop_stack
  | call_find_enum str => result_int <$> find_enum str
  | call_find_key str => result_int <$> find_key str
  | call_write_int8 index x => void (write_int8 index x)
  | call_write_uint8 index x => void (write_uint8 index x)
  | call_write_many_uint8 index num_items values =>
    void (write_many_uint8 index num_items values)
  | call_write_int64 index x => void (write_int64 index x)
  | call_write_uint64 index x => void (write_uint64 index x)
  | call_write_add_int64 index x => void (write_add_int64 index x)
  | call_write_float64 index x => void (write_float64 index x)
  | call_get_and_increment index => result_int <$> get_and_increment index
  | call_length => result_int <$> length
  | call_add_to_length n => void (add_to_length n)
  | call_num_outputs => result_int <$> num_outputs
  | call_output_name i => result_string <$> output_name i
  | call_output_dtype i => result_string <$> output_dtype i
  | call_output_num_items i => result_int <$> output_num_items i
  | call_output_fill i ext => result_memory <$> output_fill i ext
  end.

(** ** A small loaded interpreter

    Symbols: 0 = "A", 1 = "AB", 2 = "x", 3 = "xy", 4 = "A".
    Instruction 0 resolves an enumeration over the symbols [0, 2);
    instruction 1 opens a record whose two fields follow it: "x", handled at
    instruction 7, and "xy", handled at instruction 9; instruction 4
    resolves an enumeration over the symbols [2, 5).
    Outputs: "x" (int64), "y" (float64), "tag" (int8), "raw" (uint8), all on
    buffer 0 of their kind, and "bad", whose kind is none of the four. *)
Definition sample : FromJsonObjectSchema :=
  {| instructions_ := [ 10; 0; 0; 2;
                        11; 2; 0; 0;
                        12; 2; 7; 0;
                        12; 3; 9; 0;
                        10; 0; 2; 5 ];
     characters_ := [ "A"; "A"; "B"; "x"; "x"; "y"; "A" ]%char;
     string_offsets_ := [ 0; 1; 3; 4; 6; 7 ];
     output_names_ := [ "x"; "y"; "tag"; "raw"; "bad" ]%string;
     output_dtypes_ := [ dtype_int64; dtype_float64; dtype_int8; dtype_uint8;
                         dtype_other 1 ];
     output_which_ := [ 0; 0; 0; 0; 0 ];
     buffers_uint8_ := [ Buffer [ 1; 255 ] ];
     buffers_int64_ := [ Buffer [ 0; 3 ] ];
     buffers_float64_ := [ Buffer [ Double 4612811918334230528 ] ];
     current_instruction_ := 0;
     instruction_stack_ := [ 0; 0; 0 ];
     current_stack_depth_ := 0;
     counters_ := [ 0; 0 ];
     length_ := 0 |}.

(** ** Vocabulary of the properties *)

(** The capacity of the call stack.  It is the size of a vector, which an
    [int64_t] can hold. *)
Definition stack_capacity (s : FromJsonObjectSchema) : Z :=
  Z.of_nat (List.length (instruction_stack_ s)).

(** The vectors the lookups index are no longer than an [int64_t] can
    index. *)
Definition vectors_fit (s : FromJsonObjectSchema) : Prop :=
  Z.of_nat (List.length (instructions_ s)) ≤ int64_max ∧
  Z.of_nat (List.length (string_offsets_ s)) ≤ int64_max ∧
  Z.of_nat (List.length (characters_ s)) ≤ int64_max.

(** [n] calls of [get_and_increment index] in a row, with what they return. *)
Fixpoint successive_ids (n : nat) (index : Z) : M (list Z) :=
  match n with
  | O => mret []
  | S n' =>
    v ← get_and_increment index;
    vs ← successive_ids n' index;
    mret (v :: vs)
  end.

(** Whenever [m] is defined it leaves the observation [f] of the object,
    such as a member, as it was. *)
Definition keeps {F A : Type} (f : FromJsonObjectSchema → F) (m : M A)
  : Prop :=
  ∀ s r s', m s = Some (r, s') → f s' = f s.

(** The calls that move the current position. *)
Definition moves_position (c : call) : bool :=
  match c with
  | call_step_forward | call_step_backward
  | call_push_stack _ | call_pop_stack => true
  | _ => false
  end.

(** The position of the interpreter: instruction and stack depth. *)
Definition position (s : FromJsonObjectSchema) : Z * Z :=
  (current_instruction_ s, current_stack_depth_ s).

(** The text of symbol [k]: the characters delimited by offsets [k] and
    [k + 1] of the symbol table. *)
Definition symbol (s : FromJsonObjectSchema) (k : Z) : option (list ascii) :=
  start ← data_at (string_offsets_ s) k;
  stop ← data_at (string_offsets_ s) (k + 1);
  if bool_decide (0 ≤ start ≤ stop ∧
                  stop ≤ Z.of_nat (List.length (characters_ s)))
  then Some (take (Z.to_nat (stop - start))
               (drop (Z.to_nat start) (characters_ s)))
  else None.

(** What the lookups test of a symbol's text: [strncmp] over the length of
    the symbol gives 0. *)
Definition accepts (str : string) (sym : list ascii) : bool :=
  bool_decide (strncmp str sym (Z.of_nat (List.length sym)) = Some 0).

(** What both lookup loops compute over their candidates, each a symbol
    text with the value to return for it: the value of the first candidate
    that the test accepts, or -1. *)
Fixpoint first_accepted (str : string) (entries : list (list ascii * Z)) : Z :=
  match entries with
  | [] => -1
  | (sym, r) :: rest =>
    if accepts str sym then r else first_accepted str rest
  end.

(** The candidates of [find_enum]: the symbols with their offsets from [k]. *)
Fixpoint enum_entries (k : Z) (syms : list (list ascii))
  : list (list ascii * Z) :=
  match syms with
  | [] => []
  | sym :: rest => (sym, k) :: enum_entries (k + 1) rest
  end.

(** The symbols [i], [i + 1], ... of the table have the texts [syms]. *)
Fixpoint symbols_from (s : FromJsonObjectSchema) (i : Z)
    (syms : list (list ascii)) : Prop :=
  match syms with
  | [] => True
  | sym :: rest => symbol s i = Some sym ∧ symbols_from s (i + 1) rest
  end.

(** The instructions [i], [i + 1], ... are key entries: the second slot of
    each is the index of a symbol with the given text, the third slot the
    given target. *)
Fixpoint key_entries_from (s : FromJsonObjectSchema) (i : Z)
    (entries : list (list ascii * Z)) : Prop :=
  match entries with
  | [] => True
  | (sym, target) :: rest =>
    (∃ stringi, data_at (instructions_ s) (i * 4 + 1) = Some stringi ∧
                symbol s stringi = Some sym) ∧
    data_at (instructions_ s) (i * 4 + 2) = Some target ∧
    key_entries_from s (i + 1) rest
  end.

(** The sample interpreter at instruction 1, which opens the record. *)
Definition sample_record : FromJsonObjectSchema :=
  with_current_instruction 1 sample.

(** ** Vocabulary of the further properties *)

(** [push_stack] of each target in turn, and [n] times [pop_stack]. *)
Fixpoint pushes (targets : list Z) : M unit :=
  match targets with
  | [] => mret tt
  | t :: rest => push_stack t;; pushes rest
  end.

Fixpoint pops (n : nat) : M unit :=
  match n with
  | O => mret tt
  | S n' => pop_stack;; pops n'
  end.

(** [write_uint8] of each byte in turn. *)
Fixpoint write_each_uint8 (index : Z) (values : list Z) : M unit :=
  match values with
  | [] => mret tt
  | v :: rest => write_uint8 index v;; write_each_uint8 index rest
  end.

(** [write_add_int64] of each delta in turn. *)
Fixpoint write_add_each (index : Z) (deltas : list Z) : M unit :=
  match deltas with
  | [] => mret tt
  | d :: rest => write_add_int64 index d;; write_add_each index rest
  end.

(** The running totals of [deltas] from [v], [v] itself left out. *)
Fixpoint running_sums (v : Z) (deltas : list Z) : list Z :=
  match deltas with
  | [] => []
  | d :: rest => (v + d) :: running_sums (v + d) rest
  end.

(** What is loaded once: the program, the symbol table and the output
    descriptors. *)
Definition loaded_program (s : FromJsonObjectSchema)
  : list Z * list ascii * list Z * list string * list dtype * list Z :=
  (instructions_ s, characters_ s, string_offsets_ s,
   output_names_ s, output_dtypes_ s, output_which_ s).

(** The sizes of the vectors that hold the mutable state. *)
Definition shape (s : FromJsonObjectSchema) : list nat :=
  [ List.length (buffers_uint8_ s); List.length (buffers_int64_ s);
    List.length (buffers_float64_ s); List.length (counters_ s);
    List.length (instruction_stack_ s) ].

(** The calls that write to each family of buffers. *)
Definition writes_uint8 (c : call) : bool :=
  match c with
  | call_write_int8 _ _ | call_write_uint8 _ _
  | call_write_many_uint8 _ _ _ => true
  | _ => false
  end.

Definition writes_int64 (c : call) : bool :=
  match c with
  | call_write_int64 _ _ | call_write_uint64 _ _
  | call_write_add_int64 _ _ => true
  | _ => false
  end.

Definition writes_float64 (c : call) : bool :=
  match c with
  | call_write_float64 _ _ => true
  | _ => false
  end.

(** The buffer index a write call is given. *)
Definition write_index (c : call) : option Z :=
  match c with
  | call_write_int8 index _ | call_write_uint8 index _
  | call_write_many_uint8 index _ _
  | call_write_int64 index _ | call_write_uint64 index _
  | call_write_add_int64 index _ | call_write_float64 index _ => Some index
  | _ => None
  end.

(** The calls that append one element to buffer [which] of the family an
    output of kind [d] reads. *)
Definition appends_one_to (d : dtype) (which : Z) (c : call) : bool :=
  match c with
  | call_write_int8 index _ | call_write_uint8 index _ =>
    match d with
    | dtype_int8 | dtype_uint8 => index =? which
    | _ => false
    end
  | call_write_int64 index _ | call_write_uint64 index _
  | call_write_add_int64 index _ =>
    match d with
    | dtype_int64 => index =? which
    | _ => false
    end
  | call_write_float64 index _ =>
    match d with
    | dtype_float64 => index =? which
    | _ => false
    end
  | _ => false
  end.

(** The number of bytes of one reported item of an output. *)
Definition item_width (d : dtype) : Z :=
  match d with
  | dtype_int64 | dtype_float64 => 8
  | _ => 1
  end.

(** The byte size of every buffer is one an [int64_t] holds. *)
Definition buffers_fit (s : FromJsonObjectSchema) : Prop :=
  Forall (λ b, GrowableBuffer.nbytes (T:=uint8_t) b ≤ int64_max)
    (buffers_uint8_ s) ∧
  Forall (λ b, GrowableBuffer.nbytes (T:=int64_t) b ≤ int64_max)
    (buffers_int64_ s) ∧
  Forall (λ b, GrowableBuffer.nbytes (T:=double) b ≤ int64_max)
    (buffers_float64_ s).

(** What a lookup reads: the program, the symbol table and the current
    position. *)
Definition lookup_view (s : FromJsonObjectSchema)
  : list Z * list ascii * list Z * Z :=
  (instructions_ s, characters_ s, string_offsets_ s, current_instruction_ s).

(** * Properties *)

(** ** Fixed-width arithmetic *)

Lemma to_int64_id z : is_int64 z → to_int64 z = z.
Proof.
  unfold is_int64, int64_min, int64_max, to_int64. intros Hz.
  rewrite Z.mod_small by lia. lia.
Qed.

Lemma to_int64_is_int64 z : is_int64 (to_int64 z).
Proof.
  unfold is_int64, int64_min, int64_max, to_int64.
  pose proof (Z.mod_pos_bound (z + 2 ^ 63) (2 ^ 64)). lia.
Qed.

(** [to_int64] keeps the residue modulo 2^64: the bit pattern. *)
Lemma to_int64_bits z : to_int64 z mod 2 ^ 64 = z mod 2 ^ 64.
Proof.
  unfold to_int64.
  rewrite <- (Zminus_mod_idemp_l ((z + 2 ^ 63) mod 2 ^ 64)).
  rewrite Z.mod_mod by lia. rewrite Zminus_mod_idemp_l.
  f_equal. lia.
Qed.

Lemma add64_one_neq a : add64 a 1 ≠ a.
Proof.
  unfold add64. intros Heq.
  pose proof (to_int64_bits (a + 1)) as Hb. rewrite Heq in Hb.
  assert (Hd : (a + 1 - a) mod 2 ^ 64 = 0).
  { rewrite Zminus_mod, <- Hb, Z.sub_diag. reflexivity. }
  replace (a + 1 - a) with 1 in Hd by lia. discriminate Hd.
Qed.

(** ** Vectors *)

Lemma at_Some {A : Type} (v : list A) i x :
  at_ v i = Some x ↔ 0 ≤ i ∧ v !! Z.to_nat i = Some x.
Proof.
  unfold at_. case_bool_decide as Hi.
  - intuition lia.
  - split; [discriminate |]. intros [Hpos Hx].
    apply lookup_lt_Some in Hx. lia.
Qed.

Lemma at_set_at {A : Type} (v v' : list A) i x :
  set_at v i x = Some v' → at_ v' i = Some x.
Proof.
  unfold set_at, at_. case_bool_decide as Hi; [| discriminate].
  intros [= <-]. rewrite length_insert, bool_decide_true by done.
  apply list_lookup_insert_eq. lia.
Qed.

Lemma set_at_defined {A : Type} (v : list A) i x :
  0 ≤ i < Z.of_nat (List.length v) →
  set_at v i x = Some (<[Z.to_nat i := x]> v).
Proof. intros Hi. unfold set_at. by rewrite bool_decide_true. Qed.

(** Unfolds the plumbing of the method monad. *)
Ltac run_method :=
  cbv [mbind M_bind mret M_ret fmap M_fmap update defined this member void].

(** ** The call stack *)

(** C3. With the depth inside the stack, [0 ≤ depth < capacity],
    [push_stack T] is defined for every jump target [T], increments the
    depth by exactly one and sets the current position to [T]; the
    [pop_stack] that follows immediately is defined, decrements the depth
    by exactly one, and restores both the current position and the depth to
    their values before the push. *)
Theorem push_pop_round_trip (s : FromJsonObjectSchema) (T : Z) :
  stack_capacity s ≤ int64_max →
  0 ≤ current_stack_depth_ s < stack_capacity s →
  ∃ s1 s2,
    push_stack T s = Some (tt, s1) ∧
    current_stack_depth_ s1 = current_stack_depth_ s + 1 ∧
    current_instruction_ s1 = T ∧
    pop_stack s1 = Some (tt, s2) ∧
    current_stack_depth_ s2 = current_stack_depth_ s1 - 1 ∧
    current_instruction_ s2 = current_instruction_ s ∧
    current_stack_depth_ s2 = current_stack_depth_ s.
Proof.
  unfold stack_capacity. intros Hcap Hin.
  assert (Hup : add64 (current_stack_depth_ s) 1 = current_stack_depth_ s + 1).
  { apply to_int64_id. unfold is_int64, int64_min, int64_max in *. lia. }
  assert (Hdown : sub64 (current_stack_depth_ s + 1) 1 = current_stack_depth_ s).
  { unfold sub64. rewrite Z.add_simpl_r. apply to_int64_id.
    unfold is_int64, int64_min, int64_max in *. lia. }
  unfold push_stack, pop_stack. run_method.
  rewrite set_at_defined by done.
  eexists _, _. split; [reflexivity |]. cbn.
  rewrite Hup, Hdown.
  unfold data_at, at_. rewrite length_insert, bool_decide_true by done.
  rewrite list_lookup_insert_eq by lia.
  repeat split; cbn; lia.
Qed.

(** The round trip on the sample interpreter, jumping to instruction 4. *)
Lemma push_pop_round_trip_witness :
  ∃ s1 s2,
    push_stack 4 sample = Some (tt, s1) ∧
    current_stack_depth_ s1 = current_stack_depth_ sample + 1 ∧
    current_instruction_ s1 = 4 ∧
    pop_stack s1 = Some (tt, s2) ∧
    current_stack_depth_ s2 = current_stack_depth_ s1 - 1 ∧
    current_instruction_ s2 = current_instruction_ sample ∧
    current_stack_depth_ s2 = current_stack_depth_ sample.
Proof.
  apply (push_pop_round_trip sample 4).
  - by vm_compute.
  - split; by vm_compute.
Defined.

(** ** Buffer writes *)

Lemma vec_set_defined {A : Type} (v : list A) i b x :
  vec_at v i = Some b →
  vec_set v i x = Some (<[Z.to_nat (to_size_t i) := x]> v).
Proof.
  unfold vec_at, vec_set, at_, set_at.
  case_bool_decide; [done | discriminate].
Qed.

Lemma vec_at_vec_set_eq {A : Type} (v v' : list A) i x :
  vec_set v i x = Some v' → vec_at v' i = Some x.
Proof. apply at_set_at. Qed.

Lemma vec_at_vec_set_ne {A : Type} (v v' : list A) i j x :
  vec_set v i x = Some v' → to_size_t j ≠ to_size_t i →
  vec_at v' j = vec_at v j.
Proof.
  unfold vec_set, vec_at, set_at, at_.
  case_bool_decide as Hi; [| discriminate]. intros [= <-] Hne.
  rewrite length_insert. case_bool_decide; [| done].
  apply list_lookup_insert_ne. lia.
Qed.

Lemma last_snoc {T : Type} (l : list T) (v : T) :
  GrowableBuffer.last (Buffer (l ++ [v])) = Some v.
Proof.
  unfold GrowableBuffer.last. cbn. rewrite map_app. cbn.
  apply List.last_last.
Qed.

(** C4. On an int64 buffer whose contents are [l ++ [v]], that is, end in
    [v], [write_add_int64 idx x] is defined and leaves at [idx] the contents
    [l ++ [v; v + x]]: one element appended, the earlier ones unchanged.
    The sum is the [int64_t] sum [add64 v x], which is [v + x] whenever
    that is an [int64_t].  The buffers at other indices are untouched. *)
Theorem write_add_int64_appends_sum (s : FromJsonObjectSchema)
    (idx x : Z) (b : GrowableBuffer int64_t) (l : list Z) (v : Z) :
  vec_at (buffers_int64_ s) idx = Some b →
  elements b = l ++ [v] →
  ∃ s',
    write_add_int64 idx x s = Some (tt, s') ∧
    vec_at (buffers_int64_ s') idx = Some (Buffer (l ++ [v; add64 v x])) ∧
    (is_int64 (v + x) →
     vec_at (buffers_int64_ s') idx = Some (Buffer (l ++ [v; v + x]))) ∧
    (∀ j, to_size_t j ≠ to_size_t idx →
          vec_at (buffers_int64_ s') j = vec_at (buffers_int64_ s) j).
Proof.
  intros Hb Hl. destruct b as [els]. cbn in Hl. subst els.
  unfold write_add_int64. run_method. rewrite Hb, last_snoc.
  destruct (vec_set (buffers_int64_ s) idx _) as [bs |] eqn:Hset;
    [| by rewrite (vec_set_defined _ _ _ _ Hb) in Hset].
  eexists. split; [reflexivity |]. cbn.
  assert (Hat : vec_at bs idx = Some (Buffer (l ++ [v; add64 v x]))).
  { rewrite (vec_at_vec_set_eq _ _ _ _ Hset).
    unfold GrowableBuffer.append. cbn. by rewrite <- app_assoc. }
  split; [exact Hat |]. split.
  - intros Hsum. rewrite Hat. unfold add64. by rewrite to_int64_id.
  - intros j Hj. by apply (vec_at_vec_set_ne _ _ _ _ _ Hset).
Qed.

(** On the sample interpreter, whose int64 buffer 0 holds [0; 3]. *)
Lemma write_add_int64_appends_sum_witness :
  ∃ s',
    write_add_int64 0 5 sample = Some (tt, s') ∧
    vec_at (buffers_int64_ s') 0 = Some (Buffer [ 0; 3; 8 ]) ∧
    vec_at (buffers_int64_ s') 1 = vec_at (buffers_int64_ sample) 1.
Proof.
  destruct (write_add_int64_appends_sum sample 0 5 (Buffer [ 0; 3 ]) [ 0 ] 3
              eq_refl eq_refl) as (s' & Hrun & _ & Hsum & Hothers).
  exists s'. split; [exact Hrun |]. split.
  - apply Hsum. split; by vm_compute.
  - apply Hothers. by vm_compute.
Defined.

(** ** Output extraction *)

Lemma nbytes_cast {T : Type} `{Primitive T} (b : GrowableBuffer T) :
  0 ≤ sizeof → GrowableBuffer.nbytes b ≤ int64_max →
  to_int64 (GrowableBuffer.nbytes b) = GrowableBuffer.nbytes b ∧
  0 ≤ GrowableBuffer.nbytes b.
Proof.
  intros Hw Hmax.
  assert (0 ≤ GrowableBuffer.nbytes b) by (unfold GrowableBuffer.nbytes; lia).
  split; [| done]. apply to_int64_id. unfold is_int64, int64_min. lia.
Qed.

(** C5. For an output [i] of declared kind [d], bound to buffer [which] of
    that kind's family, whose byte size an [int64_t] holds:
    [output_num_items i] is the byte size divided by 8 when [d] is float64
    or int64, and the byte size itself when [d] is int8 or uint8 (both read
    the uint8 family).  The object is left as it was. *)
Theorem output_num_items_by_kind (s : FromJsonObjectSchema)
    (i which : Z) (d : dtype) :
  vec_at (output_dtypes_ s) i = Some d →
  vec_at (output_which_ s) i = Some which →
  match d with
  | dtype_float64 =>
    ∀ b, vec_at (buffers_float64_ s) which = Some b →
         GrowableBuffer.nbytes b ≤ int64_max →
         output_num_items i s = Some (GrowableBuffer.nbytes b / 8, s)
  | dtype_int64 =>
    ∀ b, vec_at (buffers_int64_ s) which = Some b →
         GrowableBuffer.nbytes (T:=int64_t) b ≤ int64_max →
         output_num_items i s =
           Some (GrowableBuffer.nbytes (T:=int64_t) b / 8, s)
  | dtype_int8 | dtype_uint8 =>
    ∀ b, vec_at (buffers_uint8_ s) which = Some b →
         GrowableBuffer.nbytes (T:=uint8_t) b ≤ int64_max →
         output_num_items i s = Some (GrowableBuffer.nbytes (T:=uint8_t) b, s)
  | dtype_other _ => output_num_items i s = Some (-1, s)
  end.
Proof.
  intros Hd Hw. unfold output_num_items. run_method. rewrite Hd.
  destruct d; try reflexivity; rewrite Hw; intros b Hb Hmax; rewrite Hb;
    (destruct (nbytes_cast b) as [-> Hpos]; [by vm_compute | done |]);
    rewrite ?Z.quot_div_nonneg by lia; reflexivity.
Qed.

(** The float64 output "y" of the sample interpreter: 8 bytes, 1 item; and
    its uint8 output "raw": 2 bytes, 2 items. *)
Lemma output_num_items_by_kind_witness :
  output_num_items 1 sample = Some (8 / 8, sample) ∧
  output_num_items 3 sample = Some (2, sample).
Proof.
  split.
  - apply (output_num_items_by_kind sample 1 0 dtype_float64
             eq_refl eq_refl
             (Buffer [ Double 4612811918334230528 ]) eq_refl).
    by vm_compute.
  - apply (output_num_items_by_kind sample 3 0 dtype_uint8
             eq_refl eq_refl (Buffer [ 1; 255 ]) eq_refl).
    by vm_compute.
Defined.

(** C7. For an output [i] whose recorded kind is none of int8, uint8,
    int64, float64: [output_dtype i] is "unknown", [output_num_items i] is
    -1, and [output_fill i ext] returns the destination memory [ext] as it
    received it; all three are defined and leave the interpreter, its
    buffers included, as it was. *)
Theorem unknown_kind_fallback (s : FromJsonObjectSchema)
    (i tag : Z) (ext : list Z) :
  vec_at (output_dtypes_ s) i = Some (dtype_other tag) →
  output_dtype i s = Some ("unknown"%string, s) ∧
  output_num_items i s = Some (-1, s) ∧
  output_fill i ext s = Some (ext, s).
Proof.
  intros Hd. unfold output_dtype, output_num_items, output_fill.
  run_method. rewrite Hd. done.
Qed.

(** Output "bad" of the sample interpreter, with three bytes to fill. *)
Lemma unknown_kind_fallback_witness :
  output_dtype 4 sample = Some ("unknown"%string, sample) ∧
  output_num_items 4 sample = Some (-1, sample) ∧
  output_fill 4 [ 170; 187; 204 ] sample = Some ([ 170; 187; 204 ], sample).
Proof.
  apply (unknown_kind_fallback sample 4 1 [ 170; 187; 204 ]). reflexivity.
Defined.

(** ** Counters *)

Lemma to_int64_add_l a b : to_int64 (to_int64 a + b) = to_int64 (a + b).
Proof.
  unfold to_int64. f_equal.
  replace ((a + 2 ^ 63) mod 2 ^ 64 - 2 ^ 63 + b + 2 ^ 63)
    with ((a + 2 ^ 63) mod 2 ^ 64 + b) by lia.
  rewrite Zplus_mod_idemp_l. f_equal. lia.
Qed.

Lemma get_and_increment_run (s : FromJsonObjectSchema) (i v : Z) :
  vec_at (counters_ s) i = Some v →
  ∃ s', get_and_increment i s = Some (v, s') ∧
        vec_at (counters_ s') i = Some (add64 v 1).
Proof.
  intros Hv. unfold get_and_increment. run_method. rewrite Hv.
  destruct (vec_set (counters_ s) i _) as [cs |] eqn:Hset;
    [| by rewrite (vec_set_defined _ _ _ _ Hv) in Hset].
  eexists. split; [reflexivity |]. cbn.
  apply (vec_at_vec_set_eq _ _ _ _ Hset).
Qed.

Lemma successive_ids_run (n : nat) (s : FromJsonObjectSchema) (i v : Z) :
  vec_at (counters_ s) i = Some (to_int64 v) →
  ∃ s', successive_ids n i s =
          Some (map (λ k, to_int64 (v + Z.of_nat k)) (seq 0 n), s').
Proof.
  revert s v. induction n as [| n IH]; intros s v Hv.
  - eexists. reflexivity.
  - destruct (get_and_increment_run s i _ Hv) as (s1 & Hrun & Hnext).
    unfold add64 in Hnext. rewrite to_int64_add_l in Hnext.
    destruct (IH s1 (v + 1) Hnext) as (s2 & Hrest).
    exists s2. cbn [successive_ids]. run_method.
    rewrite Hrun, Hrest. cbn [seq map]. rewrite Z.add_0_r.
    do 3 f_equal. rewrite <- seq_shift, map_map.
    apply map_ext. intros k. f_equal. lia.
Qed.

(** C6. On a counter [i] holding [v], [get_and_increment i] returns [v],
    the value before the increment, and the call that follows immediately
    returns a different value, the incremented one.  On a fresh counter
    ([v = 0], as the counters are at load) [n] calls in a row return
    [0; 1; ...; n - 1]. *)
Theorem get_and_increment_ids (s : FromJsonObjectSchema) (i v : Z) :
  vec_at (counters_ s) i = Some v →
  (∃ s1 b s2,
     get_and_increment i s = Some (v, s1) ∧
     get_and_increment i s1 = Some (b, s2) ∧
     b = add64 v 1 ∧ v ≠ b) ∧
  (v = 0 → ∀ n : nat, Z.of_nat n ≤ 2 ^ 63 →
     ∃ s', successive_ids n i s = Some (map Z.of_nat (seq 0 n), s')).
Proof.
  intros Hv. split.
  - destruct (get_and_increment_run s i v Hv) as (s1 & Hrun & Hv1).
    destruct (get_and_increment_run s1 i _ Hv1) as (s2 & Hrun2 & _).
    exists s1, (add64 v 1), s2. repeat split; try done.
    intros Heq. by apply (add64_one_neq v).
  - intros -> n Hn.
    destruct (successive_ids_run n s i 0 Hv) as (s' & Hrun).
    exists s'. rewrite Hrun. do 2 f_equal.
    apply map_ext_in. intros k Hk. apply in_seq in Hk.
    rewrite Z.add_0_l. apply to_int64_id.
    unfold is_int64, int64_min, int64_max. lia.
Qed.

(** Counter 1 of the sample interpreter, fresh: three calls give 0, 1, 2. *)
Lemma get_and_increment_ids_witness :
  (∃ s1 b s2,
     get_and_increment 1 sample = Some (0, s1) ∧
     get_and_increment 1 s1 = Some (b, s2) ∧
     b = add64 0 1 ∧ 0 ≠ b) ∧
  (∃ s', successive_ids 3 1 sample = Some ([ 0; 1; 2 ], s')).
Proof.
  destruct (get_and_increment_ids sample 1 0 eq_refl) as [Hpair Hfresh].
  split; [exact Hpair |].
  apply (Hfresh eq_refl 3%nat). by vm_compute.
Defined.

(** ** Frame properties *)

Section Frame.
Context {F : Type} (f : FromJsonObjectSchema → F).

Lemma keeps_ret {A : Type} (a : A) : keeps f (mret a).
Proof. intros s r s' [= _ <-]. reflexivity. Qed.

Lemma keeps_this : keeps f this.
Proof. intros s r s' [= _ <-]. reflexivity. Qed.

Lemma keeps_member {A : Type} (g : FromJsonObjectSchema → A) :
  keeps f (member g).
Proof. intros s r s' [= _ <-]. reflexivity. Qed.

Lemma keeps_defined {A : Type} (o : option A) : keeps f (defined o).
Proof. intros s r s'. destruct o; [| discriminate]. by intros [= _ <-]. Qed.

Lemma keeps_update (g : FromJsonObjectSchema → FromJsonObjectSchema) :
  (∀ s, f (g s) = f s) → keeps f (update g).
Proof. intros Hg s r s' [= _ <-]. apply Hg. Qed.

Lemma keeps_bind {A B : Type} (m : M A) (k : A → M B) :
  keeps f m → (∀ a, keeps f (k a)) → keeps f (m ≫= k).
Proof.
  intros Hm Hk s r s'. unfold mbind, M_bind.
  destruct (m s) as [[a s1] |] eqn:Hms; [| discriminate].
  intros Hks. rewrite (Hk a _ _ _ Hks). by apply (Hm _ _ _ Hms).
Qed.

Lemma keeps_fmap {A B : Type} (g : A → B) (m : M A) :
  keeps f m → keeps f (g <$> m).
Proof.
  intros Hm s r s'. unfold fmap, M_fmap.
  destruct (m s) as [[a s1] |] eqn:Hms; [| discriminate].
  intros [= _ <-]. by apply (Hm _ _ _ Hms).
Qed.

Lemma keeps_void (m : M unit) : keeps f m → keeps f (void m).
Proof. intros Hm. apply keeps_bind; [done |]. intros _. apply keeps_ret. Qed.
End Frame.

(** Walks through the body of a method, leaving the updates to check. *)
Ltac keeps_body :=
  repeat first
    [ apply keeps_ret | apply keeps_this | apply keeps_member
    | apply keeps_defined | assumption
    | apply keeps_void | apply keeps_fmap
    | apply keeps_bind; [| intros ?]
    | apply keeps_update; intros ?; reflexivity
    | match goal with
      | |- keeps _ (match ?d with _ => _ end) => destruct d
      end ].

(** Neither lookup changes the object at all. *)
Lemma find_enum_loop_keeps {F : Type} (f : FromJsonObjectSchema → F)
    fuel str stringsstart i :
  keeps f (find_enum_loop fuel str stringsstart i).
Proof.
  revert i. induction fuel as [| fuel IH]; intros i; cbn [find_enum_loop];
    unfold argument3, symbol_matches; keeps_body. apply IH.
Qed.

Lemma find_key_loop_keeps {F : Type} (f : FromJsonObjectSchema → F)
    fuel str i :
  keeps f (find_key_loop fuel str i).
Proof.
  revert i. induction fuel as [| fuel IH]; intros i; cbn [find_key_loop];
    unfold argument1, symbol_matches; keeps_body. apply IH.
Qed.

Lemma find_enum_keeps {F : Type} (f : FromJsonObjectSchema → F) str :
  keeps f (find_enum str).
Proof.
  unfold find_enum, argument2, argument3. keeps_body.
  apply find_enum_loop_keeps.
Qed.

Lemma find_key_keeps {F : Type} (f : FromJsonObjectSchema → F) str :
  keeps f (find_key str).
Proof.
  unfold find_key, argument1. keeps_body. apply find_key_loop_keeps.
Qed.

(** C9. A call of any primitive other than [step_forward],
    [step_backward], [push_stack] and [pop_stack] (the lookups, the writes,
    [get_and_increment], [add_to_length], the accessors and the output
    queries) leaves [current_instruction_] and [current_stack_depth_] as
    they were. *)
Theorem position_moves_only_by_navigation (c : call)
    (s s' : FromJsonObjectSchema) (r : result) :
  moves_position c = false →
  exec c s = Some (r, s') →
  current_instruction_ s' = current_instruction_ s ∧
  current_stack_depth_ s' = current_stack_depth_ s.
Proof.
  intros Hc Hrun.
  assert (Hkeep : keeps position (exec c)).
  { destruct c; try discriminate Hc; cbn [exec];
      first [ apply keeps_fmap; apply find_enum_keeps
            | apply keeps_fmap; apply find_key_keeps
            | unfold current_stack_depth, current_instruction, instruction,
                argument1, argument2, argument3, write_int8, write_uint8,
                write_many_uint8, write_int64, write_uint64, write_add_int64,
                write_float64, get_and_increment, length, add_to_length,
                num_outputs, output_name, output_dtype, output_num_items,
                output_fill;
              keeps_body ]. }
  apply Hkeep in Hrun. unfold position in Hrun. by injection Hrun.
Qed.

(** A key lookup and a write on the sample interpreter. *)
Lemma position_moves_only_by_navigation_witness :
  (current_instruction_ sample = current_instruction_ sample ∧
   current_stack_depth_ sample = current_stack_depth_ sample) ∧
  ∃ s', exec (call_write_int64 0 7) sample = Some (result_void, s') ∧
        current_instruction_ s' = current_instruction_ sample ∧
        current_stack_depth_ s' = current_stack_depth_ sample.
Proof.
  split.
  - apply (position_moves_only_by_navigation (call_find_enum "AB")
             sample sample (result_int 0)); reflexivity.
  - eexists. split; [reflexivity |].
    eapply (position_moves_only_by_navigation (call_write_int64 0 7));
      reflexivity.
Defined.

(** ** The top-level length *)

Lemma exec_keeps_length (c : call) :
  (∀ n, c ≠ call_add_to_length n) → keeps length_ (exec c).
Proof.
  intros Hc. destruct c; try (by destruct (Hc n)); cbn [exec];
    first [ apply keeps_fmap; apply find_enum_keeps
          | apply keeps_fmap; apply find_key_keeps
          | unfold current_stack_depth, current_instruction, instruction,
              argument1, argument2, argument3, step_forward,
              step_backward, push_stack, pop_stack, write_int8,
              write_uint8, write_many_uint8, write_int64, write_uint64,
              write_add_int64, write_float64, get_and_increment, length,
              num_outputs, output_name, output_dtype, output_num_items,
              output_fill;
            keeps_body ].
Qed.

(** C8, as the code has it.  [add_to_length n] replaces the length by the
    [int64_t] sum of the length and [n]; when [n] is not negative and the
    sum is an [int64_t], the length after the call is that sum and is at
    least the length before.  No call of any other primitive changes the
    length. *)
Theorem length_changes_only_by_add_to_length (c : call)
    (s s' : FromJsonObjectSchema) (r : result) :
  exec c s = Some (r, s') →
  match c with
  | call_add_to_length n =>
    length_ s' = add64 (length_ s) n ∧
    (is_int64 (length_ s) → 0 ≤ n → length_ s + n ≤ int64_max →
     length_ s' = length_ s + n ∧ length_ s ≤ length_ s')
  | _ => length_ s' = length_ s
  end.
Proof.
  intros Hrun.
  destruct c;
    try (apply exec_keeps_length in Hrun; [exact Hrun | by intros ?]).
  cbn in Hrun. injection Hrun as _ <-. cbn. split; [reflexivity |].
  intros Hl Hn Hmax. unfold add64. rewrite to_int64_id; [lia |].
  unfold is_int64 in *. lia.
Qed.

(** Two top-level items counted on the sample interpreter, and a write. *)
Lemma length_changes_only_by_add_to_length_witness :
  (∃ s', exec (call_add_to_length 2) sample = Some (result_void, s') ∧
         length_ s' = length_ sample + 2 ∧ length_ sample ≤ length_ s') ∧
  (∃ s', exec (call_write_uint8 0 9) sample = Some (result_void, s') ∧
         length_ s' = length_ sample).
Proof.
  split; eexists; (split; [reflexivity |]).
  - apply (length_changes_only_by_add_to_length (call_add_to_length 2)
             sample _ result_void eq_refl); try (split; by vm_compute);
      by vm_compute.
  - apply (length_changes_only_by_add_to_length (call_write_uint8 0 9)
             sample _ result_void). reflexivity.
Defined.

(** C8 as stated fails: on the sample interpreter, whose length is 0,
    [add_to_length (-1)] is defined and leaves the length at -1, below its
    value before the call. *)
Lemma add_to_length_negative_decreases :
  ∃ s', add_to_length (-1) sample = Some (tt, s') ∧
        length sample = Some (0, sample) ∧
        length s' = Some (-1, s') ∧
        ¬ (length_ sample ≤ length_ s').
Proof.
  eexists. split; [reflexivity |]. repeat split. by vm_compute.
Qed.

(** ** One store per width *)

Lemma write_uint8_run (s : FromJsonObjectSchema) (i x : Z)
    (b : GrowableBuffer uint8_t) :
  vec_at (buffers_uint8_ s) i = Some b →
  ∃ bs, vec_set (buffers_uint8_ s) i (GrowableBuffer.append b x) = Some bs ∧
        write_uint8 i x s = Some (tt, with_buffers_uint8 bs s).
Proof.
  intros Hb. unfold write_uint8. run_method. rewrite Hb.
  destruct (vec_set (buffers_uint8_ s) i _) as [bs |] eqn:Hset;
    [| by rewrite (vec_set_defined _ _ _ _ Hb) in Hset].
  by exists bs.
Qed.

Lemma write_int64_run (s : FromJsonObjectSchema) (i x : Z)
    (b : GrowableBuffer int64_t) :
  vec_at (buffers_int64_ s) i = Some b →
  ∃ bs, vec_set (buffers_int64_ s) i (GrowableBuffer.append b x) = Some bs ∧
        write_int64 i x s = Some (tt, with_buffers_int64 bs s).
Proof.
  intros Hb. unfold write_int64. run_method. rewrite Hb.
  destruct (vec_set (buffers_int64_ s) i _) as [bs |] eqn:Hset;
    [| by rewrite (vec_set_defined _ _ _ _ Hb) in Hset].
  by exists bs.
Qed.

(** [write_int8] is [write_uint8] of the byte with the same bit pattern,
    and [write_uint64] is [write_int64] of the two's-complement value. *)
Lemma write_int8_as_uint8 (i x : Z) : write_int8 i x = write_uint8 i (x mod 256).
Proof. reflexivity. Qed.

Lemma write_uint64_as_int64 (i x : Z) :
  write_uint64 i x = write_int64 i (to_int64 x).
Proof. reflexivity. Qed.

(** C10. There is one byte store and one 64-bit integer store.
    - [write_int8 i x] followed by [write_uint8 i y] leaves the uint8 buffer
      [i] with the two bytes [x mod 256] and [y] appended, in this order;
    - [write_uint64 i x] followed by [write_int64 i y] leaves the int64
      buffer [i] with [to_int64 x] and [y] appended, where [to_int64 x] is
      the [int64_t] congruent to [x] modulo 2^64;
    - the buffers of the other kinds are untouched by either pair;
    - an int8 output and a uint8 output bound to the same buffer index
      report the same count and fill the same bytes. *)
Theorem signed_and_unsigned_share_stores (s : FromJsonObjectSchema) :
  (∀ i x y b,
     vec_at (buffers_uint8_ s) i = Some b →
     ∃ s', (write_int8 i x;; write_uint8 i y) s = Some (tt, s') ∧
           vec_at (buffers_uint8_ s') i
             = Some (Buffer (elements b ++ [x mod 256; y])) ∧
           buffers_int64_ s' = buffers_int64_ s ∧
           buffers_float64_ s' = buffers_float64_ s) ∧
  (∀ i x y b,
     vec_at (buffers_int64_ s) i = Some b →
     ∃ s', (write_uint64 i x;; write_int64 i y) s = Some (tt, s') ∧
           vec_at (buffers_int64_ s') i
             = Some (Buffer (elements b ++ [to_int64 x; y])) ∧
           is_int64 (to_int64 x) ∧
           to_int64 x mod 2 ^ 64 = x mod 2 ^ 64 ∧
           buffers_uint8_ s' = buffers_uint8_ s ∧
           buffers_float64_ s' = buffers_float64_ s) ∧
  (∀ i j ext,
     vec_at (output_dtypes_ s) i = Some dtype_int8 →
     vec_at (output_dtypes_ s) j = Some dtype_uint8 →
     vec_at (output_which_ s) i = vec_at (output_which_ s) j →
     output_num_items i s = output_num_items j s ∧
     output_fill i ext s = output_fill j ext s).
Proof.
  split; [| split].
  - intros i x y b Hb. rewrite write_int8_as_uint8.
    destruct (write_uint8_run s i (x mod 256) b Hb) as (bs1 & Hset1 & Hrun1).
    pose proof (vec_at_vec_set_eq _ _ _ _ Hset1) as Hb1.
    destruct (write_uint8_run (with_buffers_uint8 bs1 s) i y _ Hb1)
      as (bs2 & Hset2 & Hrun2).
    eexists. unfold mbind, M_bind. rewrite Hrun1, Hrun2.
    split; [reflexivity |]. cbn in *.
    rewrite (vec_at_vec_set_eq _ _ _ _ Hset2).
    unfold GrowableBuffer.append. cbn. by rewrite <- app_assoc.
  - intros i x y b Hb. rewrite write_uint64_as_int64.
    destruct (write_int64_run s i (to_int64 x) b Hb) as (bs1 & Hset1 & Hrun1).
    pose proof (vec_at_vec_set_eq _ _ _ _ Hset1) as Hb1.
    destruct (write_int64_run (with_buffers_int64 bs1 s) i y _ Hb1)
      as (bs2 & Hset2 & Hrun2).
    eexists. unfold mbind, M_bind. rewrite Hrun1, Hrun2.
    split; [reflexivity |]. cbn in *.
    rewrite (vec_at_vec_set_eq _ _ _ _ Hset2).
    unfold GrowableBuffer.append. cbn. rewrite <- app_assoc.
    repeat split; try done.
    + apply to_int64_is_int64.
    + apply to_int64_is_int64.
    + apply to_int64_bits.
  - intros i j ext Hi Hj Hw.
    unfold output_num_items, output_fill. run_method.
    rewrite Hi, Hj, Hw. done.
Qed.

(** On the sample interpreter: the bytes -1 and 7 on buffer 0, the integers
    2^64 - 1 and 7 on buffer 0, and its outputs "tag" (int8) and "raw"
    (uint8). *)
Lemma signed_and_unsigned_share_stores_witness :
  (∃ s', (write_int8 0 (-1);; write_uint8 0 7) sample = Some (tt, s') ∧
         vec_at (buffers_uint8_ s') 0 = Some (Buffer [ 1; 255; 255; 7 ])) ∧
  (∃ s', (write_uint64 0 (2 ^ 64 - 1);; write_int64 0 7) sample
           = Some (tt, s') ∧
         vec_at (buffers_int64_ s') 0 = Some (Buffer [ 0; 3; -1; 7 ])) ∧
  (output_num_items 2 sample = output_num_items 3 sample ∧
   output_fill 2 [ 0; 0; 0 ] sample = output_fill 3 [ 0; 0; 0 ] sample).
Proof.
  destruct (signed_and_unsigned_share_stores sample) as (H8 & H64 & Hout).
  split; [| split].
  - destruct (H8 0 (-1) 7 (Buffer [ 1; 255 ]) eq_refl) as (s' & Hrun & Hb & _).
    exists s'. split; [exact Hrun | exact Hb].
  - destruct (H64 0 (2 ^ 64 - 1) 7 (Buffer [ 0; 3 ]) eq_refl)
      as (s' & Hrun & Hb & _).
    exists s'. split; [exact Hrun | exact Hb].
  - apply (Hout 2 3 [ 0; 0; 0 ]); reflexivity.
Defined.

(** ** Symbol resolution *)

Lemma uchar_inj c1 c2 : uchar c1 = uchar c2 → c1 = c2.
Proof.
  unfold uchar. intros Heq. apply N2Z.inj in Heq.
  rewrite <- (ascii_N_embedding c1), <- (ascii_N_embedding c2).
  by rewrite Heq.
Qed.

(** One step of [strncmp] with characters left to compare. *)
Lemma strncmp_cons (str : string) (c2 : ascii) (s2 : list ascii) (n : nat) :
  strncmp str (c2 :: s2) (Z.of_nat (S n)) =
    match str with
    | String.EmptyString => Some (0 - uchar c2)
    | String.String c1 str' =>
      if uchar c1 =? uchar c2
      then (if uchar c1 =? 0 then Some 0 else strncmp str' s2 (Z.of_nat n))
      else Some (uchar c1 - uchar c2)
    end.
Proof.
  destruct str as [| c1 str]; cbn [strncmp];
    destruct (Z.eqb_spec (Z.of_nat (S n)) 0) as [Hn | _]; try lia;
    try reflexivity.
  by replace (Z.of_nat (S n) - 1) with (Z.of_nat n) by lia.
Qed.

(** [strncmp] reads no further than the [n] characters it is given. *)
Lemma strncmp_app (str : string) (sym rest : list ascii) :
  strncmp str (sym ++ rest) (Z.of_nat (List.length sym))
  = strncmp str sym (Z.of_nat (List.length sym)).
Proof.
  revert str. induction sym as [| c sym IH]; intros str.
  - by destruct str, rest.
  - cbn [List.length app]. rewrite !strncmp_cons.
    destruct str as [| c1 str]; [done |]. by rewrite IH.
Qed.

Lemma strncmp_defined (str : string) (sym : list ascii) :
  is_Some (strncmp str sym (Z.of_nat (List.length sym))).
Proof.
  revert str. induction sym as [| c sym IH]; intros str.
  - by destruct str.
  - cbn [List.length]. rewrite strncmp_cons.
    destruct str as [| c1 str]; [done |].
    repeat case_match; try done; apply IH.
Qed.

(** On a symbol without NUL characters the test is a prefix test: it
    succeeds exactly on the strings that begin with the symbol. *)
Lemma accepts_prefix (str : string) (sym : list ascii) :
  Forall (λ c, uchar c ≠ 0) sym →
  accepts str sym = true ↔ sym `prefix_of` String.list_ascii_of_string str.
Proof.
  unfold accepts. rewrite bool_decide_eq_true.
  revert str. induction sym as [| c sym IH]; intros str Hnul.
  - split; [intros _; apply prefix_nil | by destruct str].
  - inversion Hnul as [| ? ? Hc Hsym]; subst.
    cbn [List.length]. rewrite strncmp_cons.
    destruct str as [| c1 str]; cbn [String.list_ascii_of_string].
    + split.
      * intros [= Hz]. lia.
      * intros Hp. by apply prefix_nil_inv in Hp.
    + destruct (Z.eqb_spec (uchar c1) (uchar c)) as [Heq | Hne].
      * pose proof (uchar_inj _ _ Heq) as ->.
        destruct (Z.eqb_spec (uchar c) 0) as [Hz | _]; [done |].
        rewrite (IH str Hsym). split.
        -- by apply prefix_cons.
        -- by apply prefix_cons_inv_2.
      * split.
        -- intros [= Hz]. lia.
        -- intros Hp. apply prefix_cons_inv_1 in Hp. congruence.
Qed.

(** The offsets of a symbol, and the test of the lookups on them. *)
Lemma symbol_matches_accepts (s : FromJsonObjectSchema) (str : string)
    (k : Z) (sym : list ascii) :
  vectors_fit s →
  symbol s k = Some sym →
  ∃ start stop,
    data_at (string_offsets_ s) k = Some start ∧
    data_at (string_offsets_ s) (add64 k 1) = Some stop ∧
    symbol_matches str start stop s = Some (accepts str sym, s).
Proof.
  intros (_ & Hoff & Hchars). unfold symbol.
  destruct (data_at (string_offsets_ s) k) as [start |] eqn:Hstart;
    [| discriminate].
  destruct (data_at (string_offsets_ s) (k + 1)) as [stop |] eqn:Hstop;
    [| discriminate].
  cbn. case_bool_decide as Hrange; [| discriminate]. intros [= Hsym].
  exists start, stop. split; [done |].
  assert (Hk : add64 k 1 = k + 1).
  { apply at_Some in Hstop as [? Hlt]. apply lookup_lt_Some in Hlt.
    apply to_int64_id. unfold is_int64, int64_min, int64_max in *. lia. }
  rewrite Hk. split; [done |].
  unfold symbol_matches, ptr_at. run_method.
  rewrite bool_decide_true by lia.
  assert (Hlen : Z.of_nat (List.length sym) = stop - start).
  { rewrite <- Hsym, length_take, length_drop. lia. }
  assert (Hn : to_size_t (sub64 stop start) = Z.of_nat (List.length sym)).
  { unfold sub64. rewrite to_int64_id
      by (unfold is_int64, int64_min, int64_max in *; lia).
    unfold to_size_t. rewrite Z.mod_small; [lia |].
    unfold int64_max in *. lia. }
  rewrite Hn.
  rewrite <- (take_drop (Z.to_nat (stop - start))
                (drop (Z.to_nat start) (characters_ s))), Hsym.
  rewrite strncmp_app.
  destruct (strncmp_defined str sym) as [c Hc]. rewrite Hc.
  unfold accepts. rewrite Hc. do 2 f_equal.
  apply bool_decide_ext. split; congruence.
Qed.

Lemma symbol_index_range (s : FromJsonObjectSchema) (k : Z) sym :
  vectors_fit s → symbol s k = Some sym → 0 ≤ k ∧ k + 1 ≤ int64_max.
Proof.
  intros (_ & Hoff & _). unfold symbol.
  destruct (data_at (string_offsets_ s) k) as [start |] eqn:Hstart;
    [| discriminate].
  destruct (data_at (string_offsets_ s) (k + 1)) as [stop |] eqn:Hstop;
    [| discriminate].
  intros _. apply at_Some in Hstart as [? _].
  apply at_Some in Hstop as [_ Hlt]. apply lookup_lt_Some in Hlt. lia.
Qed.

Lemma find_enum_loop_spec (s : FromJsonObjectSchema) (str : string)
    (stringsstart : Z) (syms : list (list ascii)) :
  vectors_fit s →
  ∀ (fuel : nat) (i : Z),
    0 ≤ stringsstart ≤ i →
    argument3 s = Some (i + Z.of_nat (List.length syms), s) →
    symbols_from s i syms →
    (List.length syms < fuel)%nat →
    find_enum_loop fuel str stringsstart i s
    = Some (first_accepted str (enum_entries (i - stringsstart) syms), s).
Proof.
  intros Hfit. induction syms as [| sym rest IH];
    intros fuel i Hi Hbound Hsyms Hfuel;
    (destruct fuel as [| fuel]; [cbn in Hfuel; lia |]);
    cbn [find_enum_loop]; unfold mbind at 1, M_bind at 1; rewrite Hbound.
  - cbn [List.length]. rewrite bool_decide_false by lia. reflexivity.
  - cbn [List.length] in *. rewrite bool_decide_true by lia.
    destruct Hsyms as [Hsym Hrest].
    destruct (symbol_index_range _ _ _ Hfit Hsym) as [Hi0 Himax].
    destruct (symbol_matches_accepts s str i sym Hfit Hsym)
      as (start & stop & Hstart & Hstop & Hmatch).
    assert (Hnext : add64 i 1 = i + 1).
    { apply to_int64_id. unfold is_int64, int64_min. lia. }
    run_method. rewrite Hstart, Hstop, Hmatch.
    cbn [enum_entries first_accepted]. destruct (accepts str sym).
    + unfold sub64. rewrite to_int64_id; [done |].
      unfold is_int64, int64_min. lia.
    + rewrite Hnext. rewrite IH; try done; try lia.
      * by replace (i + 1 - stringsstart) with (i - stringsstart + 1) by lia.
      * rewrite Hbound. do 2 f_equal. lia.
Qed.

(** [find_enum] over a well-formed range [stringsstart, stop) of symbols
    with texts [syms]: it is defined, leaves the object as it was, and
    returns the offset of the first symbol the test accepts, or -1. *)
Lemma find_enum_spec (s : FromJsonObjectSchema) (str : string)
    (stringsstart : Z) (syms : list (list ascii)) :
  vectors_fit s →
  0 ≤ stringsstart →
  argument2 s = Some (stringsstart, s) →
  argument3 s = Some (stringsstart + Z.of_nat (List.length syms), s) →
  symbols_from s stringsstart syms →
  find_enum str s = Some (first_accepted str (enum_entries 0 syms), s).
Proof.
  intros Hfit Hstart Ha2 Ha3 Hsyms.
  unfold find_enum, mbind, M_bind. rewrite Ha2, Ha3.
  rewrite (find_enum_loop_spec s str stringsstart syms Hfit);
    try done; try lia.
  by rewrite Z.sub_diag.
Qed.

Lemma find_key_loop_spec (s : FromJsonObjectSchema) (str : string)
    (count : Z) (entries : list (list ascii * Z)) :
  vectors_fit s →
  argument1 s = Some (count, s) →
  ∀ (fuel : nat) (i : Z),
    0 ≤ i →
    i + Z.of_nat (List.length entries)
      = add64 (current_instruction_ s) count + 1 →
    i + Z.of_nat (List.length entries) ≤ int64_max →
    key_entries_from s i entries →
    (List.length entries < fuel)%nat →
    find_key_loop fuel str i s = Some (first_accepted str entries, s).
Proof.
  intros Hfit Ha1. induction entries as [| [sym target] rest IH];
    intros fuel i Hi Hfinal Hmax Hentries Hfuel;
    (destruct fuel as [| fuel]; [cbn in Hfuel; lia |]);
    cbn [find_key_loop]; unfold mbind at 1, M_bind at 1, this at 1;
    unfold mbind at 1, M_bind at 1; rewrite Ha1.
  - cbn [List.length] in Hfinal. rewrite bool_decide_false by lia. reflexivity.
  - cbn [List.length] in *. rewrite bool_decide_true by lia.
    destruct Hentries as ((stringi & Hstringi & Hsym) & Htarget & Hrest).
    destruct (symbol_matches_accepts s str stringi sym Hfit Hsym)
      as (start & stop & Hstart & Hstop & Hmatch).
    assert (Hslot : ∀ d, 0 ≤ d ≤ 3 → add64 (mul64 i 4) d = i * 4 + d).
    { intros d Hd. destruct Hfit as (Hins & _).
      apply at_Some in Htarget as [_ Hlt]. apply lookup_lt_Some in Hlt.
      unfold add64, mul64.
      rewrite (to_int64_id (i * 4)), to_int64_id; try done;
        unfold is_int64, int64_min, int64_max in *; lia. }
    assert (Hnext : add64 i 1 = i + 1).
    { apply to_int64_id. unfold is_int64, int64_min. lia. }
    run_method. rewrite !Hslot by lia.
    rewrite Hstringi, Hstart, Hstop, Hmatch.
    cbn [first_accepted]. destruct (accepts str sym).
    + by rewrite Htarget.
    + rewrite Hnext. apply IH; try done; lia.
Qed.

(** [find_key] over a well-formed region of [count] key entries after the
    current instruction: it is defined, leaves the object as it was, and
    returns the target of the first entry whose name the test accepts, or
    -1. *)
Lemma find_key_spec (s : FromJsonObjectSchema) (str : string)
    (entries : list (list ascii * Z)) :
  vectors_fit s →
  0 ≤ current_instruction_ s →
  current_instruction_ s + Z.of_nat (List.length entries) < int64_max →
  argument1 s = Some (Z.of_nat (List.length entries), s) →
  key_entries_from s (current_instruction_ s + 1) entries →
  find_key str s = Some (first_accepted str entries, s).
Proof.
  intros Hfit Hcur Hmax Ha1 Hentries.
  assert (Hfirst : add64 (current_instruction_ s) 1
                   = current_instruction_ s + 1).
  { apply to_int64_id. unfold is_int64, int64_min. lia. }
  assert (Hlast : add64 (current_instruction_ s)
                    (Z.of_nat (List.length entries))
                  = current_instruction_ s + Z.of_nat (List.length entries)).
  { apply to_int64_id. unfold is_int64, int64_min. lia. }
  unfold find_key, mbind, M_bind, this. rewrite Ha1, Hfirst, Hlast.
  apply (find_key_loop_spec s str (Z.of_nat (List.length entries)));
    try done; try lia.
Qed.

(** *** Exact texts *)

(** Where no candidate before the [k]-th is a prefix of the [k]-th text,
    the lookup of that exact text gives the [k]-th value. *)
Lemma first_accepted_exact (entries : list (list ascii * Z))
    (k : nat) (sym : list ascii) (r : Z) :
  Forall (λ e, Forall (λ c, uchar c ≠ 0) e.1) entries →
  entries !! k = Some (sym, r) →
  (∀ j e, (j < k)%nat → entries !! j = Some e → ¬ e.1 `prefix_of` sym) →
  first_accepted (String.string_of_list_ascii sym) entries = r.
Proof.
  revert k. induction entries as [| [sym' r'] rest IH];
    intros k Hnul Hk Hfirst; [done |].
  inversion Hnul as [| ? ? Hnul' Hrest]; subst. cbn in Hnul'.
  cbn [first_accepted]. destruct k as [| k].
  - injection Hk as -> ->.
    assert (Hacc : accepts (String.string_of_list_ascii sym) sym = true).
    { apply accepts_prefix; [done |].
      by rewrite String.list_ascii_of_string_of_list_ascii. }
    by rewrite Hacc.
  - destruct (accepts _ sym') eqn:Hacc.
    + apply accepts_prefix in Hacc; [| done].
      rewrite String.list_ascii_of_string_of_list_ascii in Hacc.
      destruct (Hfirst 0%nat (sym', r')); [lia | done | done].
    + apply (IH k); [done | done |].
      intros j e Hj He. apply (Hfirst (S j) e); [lia | done].
Qed.

(** Where no candidate is a prefix of the string, the lookup gives -1. *)
Lemma first_accepted_absent (entries : list (list ascii * Z)) (str : string) :
  Forall (λ e, Forall (λ c, uchar c ≠ 0) e.1) entries →
  Forall (λ e, ¬ e.1 `prefix_of` String.list_ascii_of_string str) entries →
  first_accepted str entries = -1.
Proof.
  induction entries as [| [sym r] rest IH]; intros Hnul Habs; [done |].
  inversion Hnul as [| ? ? Hnul' Hrest]; subst.
  inversion Habs as [| ? ? Habs' Harest]; subst. cbn in *.
  destruct (accepts str sym) eqn:Hacc; [| by apply IH].
  by apply accepts_prefix in Hacc.
Qed.

Lemma enum_entries_lookup (k0 : Z) (syms : list (list ascii)) (k : nat) :
  enum_entries k0 syms !! k = (λ sym, (sym, k0 + Z.of_nat k)) <$> syms !! k.
Proof.
  revert k0 k. induction syms as [| sym rest IH]; intros k0 [| k]; cbn;
    try done.
  - by rewrite Z.add_0_r.
  - rewrite IH. destruct (rest !! k); cbn; [| done]. do 2 f_equal. lia.
Qed.

Lemma enum_entries_fst (k0 : Z) (syms : list (list ascii)) :
  (enum_entries k0 syms).*1 = syms.
Proof.
  revert k0. induction syms as [| sym rest IH]; intros k0; cbn; [done |].
  by rewrite IH.
Qed.

Lemma Forall_entries_texts (P : list ascii → Prop)
    (entries : list (list ascii * Z)) :
  Forall P entries.*1 → Forall (λ e, P e.1) entries.
Proof.
  induction entries as [| e rest IH]; intros H; [done |].
  inversion H; subst. constructor; auto.
Qed.

(** X20. [find_enum] does what the specification says on the tables in
    which no symbol of the range is a prefix of a later, different one: the
    exact text of the [k]-th symbol of the range gives [k] when no earlier
    symbol of the range is a prefix of it. *)
Lemma find_enum_exact (s : FromJsonObjectSchema) (stringsstart : Z)
    (syms : list (list ascii)) (k : nat) (sym : list ascii) :
  vectors_fit s →
  0 ≤ stringsstart →
  argument2 s = Some (stringsstart, s) →
  argument3 s = Some (stringsstart + Z.of_nat (List.length syms), s) →
  symbols_from s stringsstart syms →
  Forall (Forall (λ c, uchar c ≠ 0)) syms →
  syms !! k = Some sym →
  (∀ j sym', (j < k)%nat → syms !! j = Some sym' → ¬ sym' `prefix_of` sym) →
  find_enum (String.string_of_list_ascii sym) s = Some (Z.of_nat k, s).
Proof.
  intros Hfit Hstart Ha2 Ha3 Hsyms Hnul Hk Hfirst.
  rewrite (find_enum_spec s _ stringsstart syms) by done.
  do 2 f_equal. apply (first_accepted_exact _ k sym).
  - apply Forall_entries_texts. by rewrite enum_entries_fst.
  - rewrite enum_entries_lookup, Hk. cbn. do 2 f_equal.
  - intros j [sym' r] Hj He. rewrite enum_entries_lookup in He.
    destruct (syms !! j) as [sym'' |] eqn:Hsj; [| discriminate].
    injection He as <- _. by apply (Hfirst j).
Qed.

(** A string that no symbol of the range is a prefix of gives -1. *)
Lemma find_enum_absent (s : FromJsonObjectSchema) (stringsstart : Z)
    (syms : list (list ascii)) (str : string) :
  vectors_fit s →
  0 ≤ stringsstart →
  argument2 s = Some (stringsstart, s) →
  argument3 s = Some (stringsstart + Z.of_nat (List.length syms), s) →
  symbols_from s stringsstart syms →
  Forall (Forall (λ c, uchar c ≠ 0)) syms →
  Forall (λ sym, ¬ sym `prefix_of` String.list_ascii_of_string str) syms →
  find_enum str s = Some (-1, s).
Proof.
  intros Hfit Hstart Ha2 Ha3 Hsyms Hnul Habs.
  rewrite (find_enum_spec s _ stringsstart syms) by done.
  do 2 f_equal. apply first_accepted_absent.
  - apply Forall_entries_texts. by rewrite enum_entries_fst.
  - apply (Forall_entries_texts
             (λ sym, ¬ sym `prefix_of` String.list_ascii_of_string str)).
    by rewrite enum_entries_fst.
Qed.

(** X21. [find_key] on the exact name of the [k]-th entry gives its target
    when no earlier entry's name is a prefix of that name; in particular
    the first of two entries with one name wins. *)
Lemma find_key_exact (s : FromJsonObjectSchema)
    (entries : list (list ascii * Z)) (k : nat) (sym : list ascii)
    (target : Z) :
  vectors_fit s →
  0 ≤ current_instruction_ s →
  current_instruction_ s + Z.of_nat (List.length entries) < int64_max →
  argument1 s = Some (Z.of_nat (List.length entries), s) →
  key_entries_from s (current_instruction_ s + 1) entries →
  Forall (λ e, Forall (λ c, uchar c ≠ 0) e.1) entries →
  entries !! k = Some (sym, target) →
  (∀ j e, (j < k)%nat → entries !! j = Some e → ¬ e.1 `prefix_of` sym) →
  find_key (String.string_of_list_ascii sym) s = Some (target, s).
Proof.
  intros Hfit Hcur Hmax Ha1 Hentries Hnul Hk Hfirst.
  rewrite (find_key_spec s _ entries) by done.
  do 2 f_equal. by apply (first_accepted_exact _ k sym).
Qed.

(** A name that no entry's name is a prefix of gives -1. *)
Lemma find_key_absent (s : FromJsonObjectSchema)
    (entries : list (list ascii * Z)) (str : string) :
  vectors_fit s →
  0 ≤ current_instruction_ s →
  current_instruction_ s + Z.of_nat (List.length entries) < int64_max →
  argument1 s = Some (Z.of_nat (List.length entries), s) →
  key_entries_from s (current_instruction_ s + 1) entries →
  Forall (λ e, Forall (λ c, uchar c ≠ 0) e.1) entries →
  Forall (λ e, ¬ e.1 `prefix_of` String.list_ascii_of_string str) entries →
  find_key str s = Some (-1, s).
Proof.
  intros Hfit Hcur Hmax Ha1 Hentries Hnul Habs.
  rewrite (find_key_spec s _ entries) by done.
  do 2 f_equal. by apply first_accepted_absent.
Qed.

(** The sample interpreter meets the conditions of these lemmas: in its
    symbol range [2, 5), with texts "x", "xy", "A", the exact text "A" has
    no earlier prefix and gives offset 2; in its key region the exact name
    "x" gives target 7 and the name "y" gives -1. *)
Lemma find_enum_exact_witness :
  find_enum "A" (with_current_instruction 4 sample)
  = Some (2, with_current_instruction 4 sample).
Proof.
  apply (find_enum_exact (with_current_instruction 4 sample) 2
           [ [ "x" ]; [ "x"; "y" ]; [ "A" ] ]%char 2 [ "A" ]%char);
    try reflexivity; try (by vm_compute).
  - repeat constructor; by vm_compute.
  - intros [| [| j]] sym' Hj Hsym; try lia; cbn in Hsym;
      injection Hsym as <-; intros [tail Htail]; discriminate Htail.
Defined.

Lemma find_key_exact_witness :
  find_key "x" sample_record = Some (7, sample_record).
Proof.
  apply (find_key_exact sample_record
           [ ([ "x" ]%char, 7); ([ "x"; "y" ]%char, 9) ] 0 [ "x" ]%char 7);
    try reflexivity; try (by vm_compute).
  - cbn [key_entries_from]. repeat split; try reflexivity.
    + exists 2. split; reflexivity.
    + exists 3. split; reflexivity.
  - repeat constructor; by vm_compute.
  - intros j e Hj. lia.
Defined.

Example find_key_absent_sample :
  find_key "y" sample_record = Some (-1, sample_record).
Proof.
  apply (find_key_absent sample_record
           [ ([ "x" ]%char, 7); ([ "x"; "y" ]%char, 9) ]);
    try reflexivity; try (by vm_compute).
  - cbn [key_entries_from]. repeat split; try reflexivity.
    + exists 2. split; reflexivity.
    + exists 3. split; reflexivity.
  - repeat constructor; by vm_compute.
  - repeat constructor; intros [tail Htail]; discriminate Htail.
Qed.

(** *** The lookups take a prefix for a match *)

(** C1. On the sample interpreter the current instruction delimits the
    symbols [0, 2), whose texts are "A" and "AB".  [find_enum "AB"]
    returns 0, the offset of "A", where "AB" has offset 1; and
    [find_enum "AC"], a text that is no symbol of the range, returns 0
    where the not-found value is -1. *)
Theorem find_enum_takes_prefix_for_match :
  argument2 sample = Some (0, sample) ∧
  argument3 sample = Some (2, sample) ∧
  symbol sample 0 = Some [ "A" ]%char ∧
  symbol sample 1 = Some [ "A"; "B" ]%char ∧
  find_enum "AB" sample = Some (0, sample) ∧
  find_enum "AC" sample = Some (0, sample).
Proof. repeat split; reflexivity. Qed.

(** C2. On the sample interpreter at instruction 1 the key-lookup region
    has two entries: the field "x" with target 7 and the field "xy" with
    target 9.  [find_key "xy"] returns 7, the target of "x", where "xy"
    declares 9; and [find_key "xz"], a name that no entry declares, returns
    7 where the not-found value is -1. *)
Theorem find_key_takes_prefix_for_match :
  argument1 sample_record = Some (2, sample_record) ∧
  key_entries_from sample_record 2
    [ ([ "x" ]%char, 7); ([ "x"; "y" ]%char, 9) ] ∧
  find_key "xy" sample_record = Some (7, sample_record) ∧
  find_key "xz" sample_record = Some (7, sample_record).
Proof.
  split; [reflexivity |]. split; [| split; reflexivity].
  cbn [key_entries_from]. repeat split; try reflexivity.
  - exists 2. split; reflexivity.
  - exists 3. split; reflexivity.
Qed.

(** * Further properties *)

(** Unfolds the methods that are plain sequences of accesses and updates. *)
Ltac unfold_methods :=
  unfold current_stack_depth, current_instruction, instruction,
    argument1, argument2, argument3, step_forward, step_backward,
    push_stack, pop_stack, write_int8, write_uint8, write_many_uint8,
    write_int64, write_uint64, write_add_int64, write_float64,
    get_and_increment, length, add_to_length, num_outputs, output_name,
    output_dtype, output_num_items, output_fill.

Ltac unfold_methods_in H :=
  unfold current_stack_depth, current_instruction, instruction,
    argument1, argument2, argument3, step_forward, step_backward,
    push_stack, pop_stack, write_int8, write_uint8, write_many_uint8,
    write_int64, write_uint64, write_add_int64, write_float64,
    get_and_increment, length, add_to_length, num_outputs, output_name,
    output_dtype, output_num_items, output_fill in H;
  cbv [mbind M_bind mret M_ret fmap M_fmap update defined this member void]
    in H.

(** Splits a run [H : m s = Some (r, s')] of such a method into the accesses
    it made, innermost first. *)
Ltac invert_run H :=
  repeat match type of H with
  | context [match ?o with _ => _ end] =>
    lazymatch o with
    | context [match _ with _ => _ end] => fail
    | _ => destruct o eqn:?; cbn in H; try discriminate H
    end
  end.


Lemma set_at_length {A : Type} (v v' : list A) i x :
  set_at v i x = Some v' → List.length v' = List.length v.
Proof.
  unfold set_at. case_bool_decide; [| discriminate].
  intros [= <-]. apply length_insert.
Qed.

Lemma vec_set_length {A : Type} (v v' : list A) i x :
  vec_set v i x = Some v' → List.length v' = List.length v.
Proof. apply set_at_length. Qed.

(** ** Stepping *)



(** ** What no call changes *)

Lemma exec_keeps_loaded_program (c : call) : keeps loaded_program (exec c).
Proof.
  destruct c; cbn [exec];
    first [ apply keeps_fmap; apply find_enum_keeps
          | apply keeps_fmap; apply find_key_keeps
          | unfold_methods; keeps_body ].
Qed.

(** X2. No call of any primitive changes what was loaded: the instruction
    program, the characters and offsets of the symbol table, and the names,
    kinds and buffer indices of the outputs. *)
Theorem loaded_program_is_never_changed (c : call)
    (s s' : FromJsonObjectSchema) (r : result) :
  exec c s = Some (r, s') →
  instructions_ s' = instructions_ s ∧
  characters_ s' = characters_ s ∧
  string_offsets_ s' = string_offsets_ s ∧
  output_names_ s' = output_names_ s ∧
  output_dtypes_ s' = output_dtypes_ s ∧
  output_which_ s' = output_which_ s.
Proof.
  intros Hrun. apply exec_keeps_loaded_program in Hrun.
  unfold loaded_program in Hrun. by simplify_eq.
Qed.

(** A push and a write on the sample interpreter. *)
Lemma loaded_program_is_never_changed_witness :
  (∃ s', exec (call_push_stack 4) sample = Some (result_void, s') ∧
         instructions_ s' = instructions_ sample ∧
         string_offsets_ s' = string_offsets_ sample) ∧
  (∃ s', exec (call_write_float64 0 (Double 0)) sample
           = Some (result_void, s') ∧
         output_dtypes_ s' = output_dtypes_ sample).
Proof.
  split; eexists; (split; [reflexivity |]).
  - destruct (loaded_program_is_never_changed (call_push_stack 4)
                sample _ result_void eq_refl) as (Hi & _ & Ho & _).
    split; [exact Hi | exact Ho].
  - destruct (loaded_program_is_never_changed
                (call_write_float64 0 (Double 0))
                sample _ result_void eq_refl) as (_ & _ & _ & _ & Hd & _).
    exact Hd.
Defined.

Lemma exec_keeps_shape (c : call) : keeps shape (exec c).
Proof.
  destruct c; cbn [exec];
    first [ apply keeps_fmap; apply find_enum_keeps
          | apply keeps_fmap; apply find_key_keeps
          | solve [ unfold_methods; keeps_body ]
          | intros s r s' Hrun; unfold_methods_in Hrun; invert_run Hrun;
            injection Hrun as _ <-; unfold shape; cbn;
            repeat match goal with
            | Hset : vec_set _ _ _ = Some _ |- _ =>
              apply vec_set_length in Hset; rewrite Hset; clear Hset
            | Hset : set_at _ _ _ = Some _ |- _ =>
              apply set_at_length in Hset; rewrite Hset; clear Hset
            end; reflexivity ].
Qed.

(** X3. No call of any primitive changes the number of buffers of any
    kind, the number of counters, or the capacity of the call stack: a
    write, an increment and a push replace one element of their vector in
    place and never extend it. *)
Theorem shape_is_never_changed (c : call)
    (s s' : FromJsonObjectSchema) (r : result) :
  exec c s = Some (r, s') →
  List.length (buffers_uint8_ s') = List.length (buffers_uint8_ s) ∧
  List.length (buffers_int64_ s') = List.length (buffers_int64_ s) ∧
  List.length (buffers_float64_ s') = List.length (buffers_float64_ s) ∧
  List.length (counters_ s') = List.length (counters_ s) ∧
  stack_capacity s' = stack_capacity s.
Proof.
  intros Hrun. apply exec_keeps_shape in Hrun.
  unfold shape in Hrun. unfold stack_capacity. simplify_eq.
  repeat split; congruence.
Qed.

(** A write, a counter and a push on the sample interpreter. *)
Lemma shape_is_never_changed_witness :
  (∃ s', exec (call_write_many_uint8 0 2 [ 7; 8; 9 ]) sample
           = Some (result_void, s') ∧
         List.length (buffers_uint8_ s') = 1%nat) ∧
  (∃ s', exec (call_get_and_increment 1) sample = Some (result_int 0, s') ∧
         List.length (counters_ s') = 2%nat) ∧
  (∃ s', exec (call_push_stack 4) sample = Some (result_void, s') ∧
         stack_capacity s' = 3).
Proof.
  split; [| split]; eexists; (split; [reflexivity |]).
  - apply (shape_is_never_changed (call_write_many_uint8 0 2 [ 7; 8; 9 ])
             sample _ result_void eq_refl).
  - apply (shape_is_never_changed (call_get_and_increment 1)
             sample _ (result_int 0) eq_refl).
  - apply (shape_is_never_changed (call_push_stack 4)
             sample _ result_void eq_refl).
Defined.

(** ** Who changes what *)

Lemma exec_keeps_buffers_uint8 (c : call) :
  writes_uint8 c = false → keeps buffers_uint8_ (exec c).
Proof.
  intros Hc. destruct c; try discriminate Hc; cbn [exec];
    first [ apply keeps_fmap; apply find_enum_keeps
          | apply keeps_fmap; apply find_key_keeps
          | unfold_methods; keeps_body ].
Qed.

Lemma exec_keeps_buffers_int64 (c : call) :
  writes_int64 c = false → keeps buffers_int64_ (exec c).
Proof.
  intros Hc. destruct c; try discriminate Hc; cbn [exec];
    first [ apply keeps_fmap; apply find_enum_keeps
          | apply keeps_fmap; apply find_key_keeps
          | unfold_methods; keeps_body ].
Qed.

Lemma exec_keeps_buffers_float64 (c : call) :
  writes_float64 c = false → keeps buffers_float64_ (exec c).
Proof.
  intros Hc. destruct c; try discriminate Hc; cbn [exec];
    first [ apply keeps_fmap; apply find_enum_keeps
          | apply keeps_fmap; apply find_key_keeps
          | unfold_methods; keeps_body ].
Qed.

(** X4. The uint8 buffers are changed by no call other than [write_int8],
    [write_uint8] and [write_many_uint8]; the int64 buffers by none other
    than [write_int64], [write_uint64] and [write_add_int64]; the float64
    buffers by none other than [write_float64].  Navigation, lookups,
    counters, [add_to_length] and the output queries, [output_fill]
    included, change no buffer. *)
Theorem buffers_change_only_by_their_writes (c : call)
    (s s' : FromJsonObjectSchema) (r : result) :
  exec c s = Some (r, s') →
  (writes_uint8 c = false → buffers_uint8_ s' = buffers_uint8_ s) ∧
  (writes_int64 c = false → buffers_int64_ s' = buffers_int64_ s) ∧
  (writes_float64 c = false → buffers_float64_ s' = buffers_float64_ s).
Proof.
  intros Hrun. repeat split; intros Hc.
  - by apply (exec_keeps_buffers_uint8 c Hc) in Hrun.
  - by apply (exec_keeps_buffers_int64 c Hc) in Hrun.
  - by apply (exec_keeps_buffers_float64 c Hc) in Hrun.
Qed.

(** Filling output "x" of the sample interpreter, and a byte write. *)
Lemma buffers_change_only_by_their_writes_witness :
  (∃ r s', exec (call_output_fill 0 (replicate 16 0)) sample = Some (r, s') ∧
           buffers_uint8_ s' = buffers_uint8_ sample ∧
           buffers_int64_ s' = buffers_int64_ sample ∧
           buffers_float64_ s' = buffers_float64_ sample) ∧
  (∃ s', exec (call_write_int8 0 (-1)) sample = Some (result_void, s') ∧
         buffers_int64_ s' = buffers_int64_ sample ∧
         buffers_float64_ s' = buffers_float64_ sample).
Proof.
  split.
  - eexists _, _. split; [reflexivity |].
    destruct (buffers_change_only_by_their_writes
                (call_output_fill 0 (replicate 16 0)) sample _ _ eq_refl)
      as (H8 & H64 & Hf).
    split; [by apply H8 |]. split; [by apply H64 | by apply Hf].
  - eexists. split; [reflexivity |].
    destruct (buffers_change_only_by_their_writes
                (call_write_int8 0 (-1)) sample _ _ eq_refl)
      as (_ & H64 & Hf).
    split; [by apply H64 | by apply Hf].
Defined.

Lemma exec_keeps_counters (c : call) :
  (∀ index, c ≠ call_get_and_increment index) → keeps counters_ (exec c).
Proof.
  intros Hc. destruct c; try (by destruct (Hc index)); cbn [exec];
    first [ apply keeps_fmap; apply find_enum_keeps
          | apply keeps_fmap; apply find_key_keeps
          | unfold_methods; keeps_body ].
Qed.

Lemma exec_keeps_instruction_stack (c : call) :
  (∀ jump_to, c ≠ call_push_stack jump_to) →
  keeps instruction_stack_ (exec c).
Proof.
  intros Hc. destruct c; try (by destruct (Hc jump_to)); cbn [exec];
    first [ apply keeps_fmap; apply find_enum_keeps
          | apply keeps_fmap; apply find_key_keeps
          | unfold_methods; keeps_body ].
Qed.

(** X5. The counters are changed by no call other than
    [get_and_increment], and the saved positions of the call stack by no
    call other than [push_stack]: [pop_stack] reads the slot it returns to
    and leaves it in place. *)
Theorem counters_and_saved_positions_change_only_by_their_calls (c : call)
    (s s' : FromJsonObjectSchema) (r : result) :
  exec c s = Some (r, s') →
  ((∀ index, c ≠ call_get_and_increment index) →
   counters_ s' = counters_ s) ∧
  ((∀ jump_to, c ≠ call_push_stack jump_to) →
   instruction_stack_ s' = instruction_stack_ s).
Proof.
  intros Hrun. split; intros Hc.
  - by apply (exec_keeps_counters c Hc) in Hrun.
  - by apply (exec_keeps_instruction_stack c Hc) in Hrun.
Qed.

(** A pop after a push on the sample interpreter leaves the slot; a write
    leaves the counters. *)
Lemma counters_and_saved_positions_change_only_by_their_calls_witness :
  (∃ s1 s2, exec (call_push_stack 4) (with_current_instruction 1 sample)
              = Some (result_void, s1) ∧
            exec call_pop_stack s1 = Some (result_void, s2) ∧
            instruction_stack_ s2 = instruction_stack_ s1 ∧
            instruction_stack_ s2 = [ 1; 0; 0 ]) ∧
  (∃ s', exec (call_write_int64 0 7) sample = Some (result_void, s') ∧
         counters_ s' = counters_ sample).
Proof.
  split.
  - eexists _, _. split; [reflexivity |]. split; [reflexivity |]. split.
    + eapply (counters_and_saved_positions_change_only_by_their_calls
                call_pop_stack); [reflexivity | by intros ?].
    + reflexivity.
  - eexists. split; [reflexivity |].
    eapply (counters_and_saved_positions_change_only_by_their_calls
              (call_write_int64 0 7)); [reflexivity | by intros ?].
Defined.

(** X6. A write to buffer [index] leaves the buffers at every other index,
    of every kind, as they were. *)
Theorem write_touches_one_buffer (c : call) (index : Z)
    (s s' : FromJsonObjectSchema) (r : result) :
  write_index c = Some index →
  exec c s = Some (r, s') →
  ∀ j, to_size_t j ≠ to_size_t index →
    vec_at (buffers_uint8_ s') j = vec_at (buffers_uint8_ s) j ∧
    vec_at (buffers_int64_ s') j = vec_at (buffers_int64_ s) j ∧
    vec_at (buffers_float64_ s') j = vec_at (buffers_float64_ s) j.
Proof.
  intros Hidx Hrun j Hj.
  destruct c; try discriminate Hidx; injection Hidx as ->;
    cbn [exec] in Hrun; unfold_methods_in Hrun; invert_run Hrun;
    injection Hrun as _ <-; cbn;
    repeat split; try reflexivity;
    match goal with
    | Hset : vec_set _ _ _ = Some _ |- _ =>
      by apply (vec_at_vec_set_ne _ _ _ _ _ Hset)
    end.
Qed.

(** Two int64 buffers, a write to the second. *)
Lemma write_touches_one_buffer_witness :
  ∃ s', exec (call_write_int64 1 7)
          (with_buffers_int64 [ Buffer [ 0; 3 ]; Buffer [] ] sample)
        = Some (result_void, s') ∧
        vec_at (buffers_int64_ s') 0 = Some (Buffer [ 0; 3 ]) ∧
        vec_at (buffers_int64_ s') 1 = Some (Buffer [ 7 ]).
Proof.
  eexists. split; [reflexivity |]. split; [| reflexivity].
  eapply (write_touches_one_buffer (call_write_int64 1 7) 1
            (with_buffers_int64 [ Buffer [ 0; 3 ]; Buffer [] ] sample)
            _ _ eq_refl eq_refl 0).
  by vm_compute.
Defined.

(** ** Counters and length *)

(** X7. A defined [get_and_increment index] returns the value the counter
    held, leaves it incremented by one ([int64_t] addition), and leaves
    every other counter as it was. *)
Theorem get_and_increment_touches_one_counter (index v : Z)
    (s s' : FromJsonObjectSchema) :
  get_and_increment index s = Some (v, s') →
  vec_at (counters_ s) index = Some v ∧
  vec_at (counters_ s') index = Some (add64 v 1) ∧
  ∀ j, to_size_t j ≠ to_size_t index →
       vec_at (counters_ s') j = vec_at (counters_ s) j.
Proof.
  intros Hrun. unfold_methods_in Hrun. invert_run Hrun.
  injection Hrun as <- <-. cbn. split; [done |]. split.
  - by eapply vec_at_vec_set_eq.
  - intros j Hj. by eapply vec_at_vec_set_ne.
Qed.

(** Counter 0 of the sample interpreter; counter 1 is left at 0. *)
Lemma get_and_increment_touches_one_counter_witness :
  ∃ s', get_and_increment 0 sample = Some (0, s') ∧
        vec_at (counters_ s') 0 = Some 1 ∧
        vec_at (counters_ s') 1 = Some 0.
Proof.
  eexists. split; [reflexivity |].
  destruct (get_and_increment_touches_one_counter 0 0 sample _ eq_refl)
    as (_ & Hown & Hothers).
  split; [exact Hown |]. rewrite (Hothers 1); [reflexivity | by vm_compute].
Defined.


(** ** The call stack, nested *)

Lemma push_stack_run (s : FromJsonObjectSchema) (T : Z) :
  stack_capacity s ≤ int64_max →
  0 ≤ current_stack_depth_ s < stack_capacity s →
  push_stack T s
  = Some (tt, with_current_instruction T
                (with_current_stack_depth (current_stack_depth_ s + 1)
                   (with_instruction_stack
                      (<[Z.to_nat (current_stack_depth_ s) :=
                           current_instruction_ s]> (instruction_stack_ s))
                      s))).
Proof.
  unfold stack_capacity. intros Hcap Hin.
  unfold push_stack. run_method. rewrite set_at_defined by done. cbn.
  unfold add64. rewrite to_int64_id; [done |].
  unfold is_int64, int64_min, int64_max in *. lia.
Qed.

Lemma pop_stack_run (s : FromJsonObjectSchema) (saved : Z) :
  stack_capacity s ≤ int64_max →
  0 < current_stack_depth_ s →
  instruction_stack_ s !! Z.to_nat (current_stack_depth_ s - 1) = Some saved →
  pop_stack s
  = Some (tt, with_current_instruction saved
                (with_current_stack_depth (current_stack_depth_ s - 1) s)).
Proof.
  unfold stack_capacity. intros Hcap Hpos Hsaved.
  pose proof (lookup_lt_Some _ _ _ Hsaved) as Hlt.
  unfold pop_stack. run_method. cbn.
  unfold sub64. rewrite to_int64_id
    by (unfold is_int64, int64_min, int64_max in *; lia).
  unfold data_at, at_. rewrite bool_decide_true by lia. by rewrite Hsaved.
Qed.

Lemma pops_succ_r (n : nat) (s : FromJsonObjectSchema) :
  pops (S n) s = (pops n;; pop_stack) s.
Proof.
  revert s. induction n as [| n IH]; intros s.
  - cbn [pops]. unfold mbind, M_bind, mret, M_ret.
    by destruct (pop_stack s) as [[[] s1] |].
  - cbn [pops] in *. unfold mbind, M_bind in *.
    destruct (pop_stack s) as [[[] s1] |]; [| done]. apply IH.
Qed.

Lemma pushes_pops_run (targets : list Z) (s : FromJsonObjectSchema) :
  stack_capacity s ≤ int64_max →
  0 ≤ current_stack_depth_ s →
  current_stack_depth_ s + Z.of_nat (List.length targets) ≤ stack_capacity s →
  ∃ stack,
    (pushes targets;; pops (List.length targets)) s
      = Some (tt, with_instruction_stack stack s) ∧
    List.length stack = List.length (instruction_stack_ s) ∧
    ∀ j, (j < Z.to_nat (current_stack_depth_ s))%nat →
         stack !! j = instruction_stack_ s !! j.
Proof.
  revert s. induction targets as [| t rest IH]; intros s Hcap Hdepth Hroom.
  - exists (instruction_stack_ s). split; [by destruct s | done].
  - cbn [List.length] in *.
    assert (Hin : 0 ≤ current_stack_depth_ s < stack_capacity s) by lia.
    pose proof (push_stack_run s t Hcap Hin) as Hpush.
    set (s1 := with_current_instruction t
                 (with_current_stack_depth (current_stack_depth_ s + 1)
                    (with_instruction_stack
                       (<[Z.to_nat (current_stack_depth_ s) :=
                            current_instruction_ s]> (instruction_stack_ s))
                       s))) in *.
    assert (Hcap1 : stack_capacity s1 = stack_capacity s).
    { unfold stack_capacity, s1. cbn. by rewrite length_insert. }
    destruct (IH s1) as (stack & Hrun & Hlen & Hbelow).
    { by rewrite Hcap1. }
    { unfold s1. cbn. lia. }
    { rewrite Hcap1. unfold s1. cbn. lia. }
    exists stack. split; [| split].
    + cbn [pushes]. unfold mbind at 1, M_bind at 1.
      unfold mbind at 1, M_bind at 1. rewrite Hpush.
      unfold mbind, M_bind in Hrun.
      destruct (pushes rest s1) as [[[] s2] |]; [| discriminate Hrun].
      rewrite pops_succ_r. unfold mbind at 1, M_bind at 1. rewrite Hrun.
      rewrite (pop_stack_run _ (current_instruction_ s)).
      * change (current_stack_depth_ (with_instruction_stack stack s1))
          with (current_stack_depth_ s + 1).
        replace (current_stack_depth_ s + 1 - 1)
          with (current_stack_depth_ s) by lia.
        unfold s1. by destruct s.
      * unfold stack_capacity in *. cbn. rewrite Hlen.
        unfold s1. cbn. rewrite length_insert. done.
      * unfold s1. cbn. lia.
      * cbn.
        replace (current_stack_depth_ s + 1 - 1)
          with (current_stack_depth_ s) by lia.
        rewrite Hbelow by (unfold s1; cbn; lia).
        unfold s1. cbn. apply list_lookup_insert_eq.
        unfold stack_capacity in Hin. lia.
    + rewrite Hlen. unfold s1. cbn. apply length_insert.
    + intros j Hj. rewrite Hbelow by (unfold s1; cbn; lia).
      unfold s1. cbn. apply list_lookup_insert_ne. lia.
Qed.

(** X9. Pushes nest.  From a depth of at least 0, with room for them under
    the capacity, pushing any number of targets and then popping as many
    times is defined and returns to the position and the depth before the
    first push; the saved positions below that depth, the capacity, and
    everything outside the call stack are as they were. *)
Theorem nested_push_pop_restores (targets : list Z)
    (s : FromJsonObjectSchema) :
  stack_capacity s ≤ int64_max →
  0 ≤ current_stack_depth_ s →
  current_stack_depth_ s + Z.of_nat (List.length targets) ≤ stack_capacity s →
  ∃ s',
    (pushes targets;; pops (List.length targets)) s = Some (tt, s') ∧
    current_instruction_ s' = current_instruction_ s ∧
    current_stack_depth_ s' = current_stack_depth_ s ∧
    stack_capacity s' = stack_capacity s ∧
    (∀ j, (j < Z.to_nat (current_stack_depth_ s))%nat →
          instruction_stack_ s' !! j = instruction_stack_ s !! j) ∧
    with_instruction_stack (instruction_stack_ s) s' = s.
Proof.
  intros Hcap Hdepth Hroom.
  destruct (pushes_pops_run targets s Hcap Hdepth Hroom)
    as (stack & Hrun & Hlen & Hbelow).
  eexists. split; [exact Hrun |]. unfold stack_capacity. cbn.
  repeat split; try done.
  - by rewrite Hlen.
  - by destruct s.
Qed.

(** Three nested pushes from instruction 1 of the sample interpreter. *)
Lemma nested_push_pop_restores_witness :
  ∃ s',
    (pushes [ 2; 3; 4 ];; pops 3) (with_current_instruction 1 sample)
      = Some (tt, s') ∧
    current_instruction_ s' = 1 ∧
    current_stack_depth_ s' = 0.
Proof.
  destruct (nested_push_pop_restores [ 2; 3; 4 ]
              (with_current_instruction 1 sample))
    as (s' & Hrun & Hcur & Hdepth & _); try (by vm_compute).
  exists s'. split; [exact Hrun |]. split; [exact Hcur | exact Hdepth].
Defined.

(** ** Lookups *)

(** X10. A defined lookup, [find_enum] or [find_key], leaves the whole
    object as it was, although neither is declared [const]. *)
Theorem lookups_leave_object_unchanged (str : string)
    (s s' : FromJsonObjectSchema) (r : Z) :
  find_enum str s = Some (r, s') ∨ find_key str s = Some (r, s') →
  s' = s.
Proof.
  intros [Hrun | Hrun].
  - by apply (find_enum_keeps id) in Hrun.
  - by apply (find_key_keeps id) in Hrun.
Qed.

(** The two lookups of the sample interpreter. *)
Lemma lookups_leave_object_unchanged_witness :
  ∃ s1 s2,
    find_enum "AB" sample = Some (0, s1) ∧ s1 = sample ∧
    find_key "x" sample_record = Some (7, s2) ∧ s2 = sample_record.
Proof.
  exists sample, sample_record. split; [reflexivity |]. split.
  - apply (lookups_leave_object_unchanged "AB" sample sample 0).
    left. reflexivity.
  - split; [reflexivity |].
    apply (lookups_leave_object_unchanged "x" sample_record sample_record 7).
    right. reflexivity.
Defined.

(** Splits the goal on the innermost access of a run. *)
Ltac split_innermost_match :=
  match goal with
  | |- context [match ?o with _ => _ end] =>
    lazymatch o with
    | context [match _ with _ => _ end] => fail
    | _ => destruct o eqn:?
    end
  end.

Lemma find_enum_loop_view (fuel : nat) (str : string) (stringsstart i : Z)
    (s1 s2 : FromJsonObjectSchema) :
  lookup_view s1 = lookup_view s2 →
  fst <$> find_enum_loop fuel str stringsstart i s1
  = fst <$> find_enum_loop fuel str stringsstart i s2.
Proof.
  intros Hview. unfold lookup_view in Hview.
  destruct s1, s2; cbn in Hview; simplify_eq.
  revert i. induction fuel as [| fuel IH]; intros i; [done |].
  cbn [find_enum_loop]. unfold argument3, symbol_matches.
  cbv [mbind M_bind mret M_ret defined this]. cbn.
  repeat (split_innermost_match; cbn; try done); apply IH.
Qed.

Lemma find_key_loop_view (fuel : nat) (str : string) (i : Z)
    (s1 s2 : FromJsonObjectSchema) :
  lookup_view s1 = lookup_view s2 →
  fst <$> find_key_loop fuel str i s1 = fst <$> find_key_loop fuel str i s2.
Proof.
  intros Hview. unfold lookup_view in Hview.
  destruct s1, s2; cbn in Hview; simplify_eq.
  revert i. induction fuel as [| fuel IH]; intros i; [done |].
  cbn [find_key_loop]. unfold argument1, symbol_matches.
  cbv [mbind M_bind mret M_ret defined this]. cbn.
  repeat (split_innermost_match; cbn; try done); apply IH.
Qed.

(** X11. What a lookup returns depends on nothing but the program, the
    symbol table and the current instruction: on two objects that agree on
    these, whatever their buffers, counters, call stack and length,
    [find_enum] returns the same, and so does [find_key]. *)
Theorem lookups_read_program_and_position (str : string)
    (s1 s2 : FromJsonObjectSchema) :
  lookup_view s1 = lookup_view s2 →
  fst <$> find_enum str s1 = fst <$> find_enum str s2 ∧
  fst <$> find_key str s1 = fst <$> find_key str s2.
Proof.
  intros Hview.
  pose proof (λ fuel a i, find_enum_loop_view fuel str a i s1 s2 Hview)
    as Henum.
  pose proof (λ fuel i, find_key_loop_view fuel str i s1 s2 Hview) as Hkey.
  unfold lookup_view in Hview.
  destruct s1, s2; cbn in Hview; simplify_eq. split.
  - unfold find_enum, argument2, argument3.
    cbv [mbind M_bind mret M_ret defined this]. cbn -[find_enum_loop].
    repeat (split_innermost_match; cbn -[find_enum_loop]; try done);
      apply Henum.
  - unfold find_key, argument1.
    cbv [mbind M_bind mret M_ret defined this]. cbn -[find_key_loop].
    repeat (split_innermost_match; cbn -[find_key_loop]; try done);
      apply Hkey.
Qed.

(** The sample interpreter before and after writes and a counter. *)
Lemma lookups_read_program_and_position_witness :
  ∃ s', (write_int64 0 7;; write_uint8 0 1;; get_and_increment 0;;
         add_to_length 1) sample = Some (tt, s') ∧
        fst <$> find_enum "AB" sample = fst <$> find_enum "AB" s' ∧
        fst <$> find_key "x" sample = fst <$> find_key "x" s'.
Proof.
  eexists. split; [reflexivity |]. split.
  - apply (lookups_read_program_and_position "AB" sample). reflexivity.
  - apply (lookups_read_program_and_position "x" sample). reflexivity.
Defined.

(** X12. On an empty or reversed symbol range, [stop ≤ start], [find_enum]
    returns -1 for every string, without reading the symbol table. *)
Theorem find_enum_empty_range (str : string) (s : FromJsonObjectSchema)
    (start stop : Z) :
  argument2 s = Some (start, s) →
  argument3 s = Some (stop, s) →
  stop ≤ start →
  find_enum str s = Some (-1, s).
Proof.
  intros Ha2 Ha3 Hempty. unfold find_enum, mbind, M_bind. rewrite Ha2, Ha3.
  replace (Z.to_nat (stop - start)) with 0%nat by lia.
  cbn [find_enum_loop]. unfold mbind, M_bind. rewrite Ha3.
  by rewrite bool_decide_false by lia.
Qed.

(** Instruction 1 of the sample interpreter has both bounds 0. *)
Lemma find_enum_empty_range_witness :
  find_enum "A" sample_record = Some (-1, sample_record).
Proof.
  apply (find_enum_empty_range "A" sample_record 0 0); try reflexivity.
Defined.

(** X13. With a count of 0 or less in the first argument of the current
    instruction, [find_key] returns -1 for every string, without reading
    any other instruction or the symbol table. *)
Theorem find_key_no_entries (str : string) (s : FromJsonObjectSchema)
    (count : Z) :
  argument1 s = Some (count, s) →
  count ≤ 0 →
  is_int64 (current_instruction_ s + count) →
  current_instruction_ s < int64_max →
  find_key str s = Some (-1, s).
Proof.
  intros Ha1 Hcount Hlast Hcur.
  assert (Hfirst : add64 (current_instruction_ s) 1
                   = current_instruction_ s + 1).
  { apply to_int64_id. unfold is_int64, int64_min, int64_max in *. lia. }
  assert (Hfinal : add64 (current_instruction_ s) count
                   = current_instruction_ s + count).
  { by apply to_int64_id. }
  unfold find_key, mbind, M_bind, this. rewrite Ha1. cbv zeta.
  rewrite Hfirst, Hfinal.
  replace (Z.to_nat _) with 0%nat by lia.
  cbn [find_key_loop]. unfold mbind, M_bind, this. rewrite Ha1, Hfinal.
  by rewrite bool_decide_false by lia.
Qed.

(** Instruction 0 of the sample interpreter has first argument 0. *)
Lemma find_key_no_entries_witness : find_key "x" sample = Some (-1, sample).
Proof.
  apply (find_key_no_entries "x" sample 0); try reflexivity;
    try split; by vm_compute.
Defined.

(** The first candidate that is a prefix of the string decides. *)
Lemma first_accepted_first_prefix (entries : list (list ascii * Z))
    (str : string) :
  Forall (λ e, Forall (λ c, uchar c ≠ 0) e.1) entries →
  (first_accepted str entries = -1 ∧
   Forall (λ e, ¬ e.1 `prefix_of` String.list_ascii_of_string str) entries) ∨
  (∃ k sym,
     entries !! k = Some (sym, first_accepted str entries) ∧
     sym `prefix_of` String.list_ascii_of_string str ∧
     ∀ j e, (j < k)%nat → entries !! j = Some e →
            ¬ e.1 `prefix_of` String.list_ascii_of_string str).
Proof.
  induction entries as [| [sym r] rest IH]; intros Hnul.
  - left. by split.
  - inversion Hnul as [| ? ? Hsym Hrest]; subst. cbn in Hsym.
    cbn [first_accepted]. destruct (accepts str sym) eqn:Hacc.
    + right. exists 0%nat, sym. split; [done |]. split.
      * by apply accepts_prefix.
      * intros j e Hj. lia.
    + assert (Hno : ¬ sym `prefix_of` String.list_ascii_of_string str).
      { intros Hp. apply accepts_prefix in Hp; [congruence | done]. }
      destruct (IH Hrest) as [[Hr Habs] | (k & sym' & Hk & Hp & Hfirst)].
      * left. split; [done |]. by constructor.
      * right. exists (S k), sym'. split; [done |]. split; [done |].
        intros [| j] e Hj He.
        -- by injection He as <-.
        -- apply (Hfirst j e); [lia | done].
Qed.

(** X14. Over a well-formed range of symbols without NUL characters,
    [find_enum] is defined, leaves the object as it was, and returns the
    offset of the first symbol of the range that is a prefix of the string,
    whether or not the string ends there; it returns -1 exactly when no
    symbol of the range is a prefix of the string. *)
Theorem find_enum_first_prefix (s : FromJsonObjectSchema) (str : string)
    (stringsstart : Z) (syms : list (list ascii)) :
  vectors_fit s →
  0 ≤ stringsstart →
  argument2 s = Some (stringsstart, s) →
  argument3 s = Some (stringsstart + Z.of_nat (List.length syms), s) →
  symbols_from s stringsstart syms →
  Forall (Forall (λ c, uchar c ≠ 0)) syms →
  ∃ r, find_enum str s = Some (r, s) ∧
       ((r = -1 ∧
         Forall (λ sym, ¬ sym `prefix_of` String.list_ascii_of_string str)
           syms) ∨
        (∃ k sym,
           r = Z.of_nat k ∧ syms !! k = Some sym ∧
           sym `prefix_of` String.list_ascii_of_string str ∧
           ∀ j sym', (j < k)%nat → syms !! j = Some sym' →
                     ¬ sym' `prefix_of` String.list_ascii_of_string str)).
Proof.
  intros Hfit Hstart Ha2 Ha3 Hsyms Hnul.
  eexists. split; [by apply (find_enum_spec s str stringsstart syms) |].
  destruct (first_accepted_first_prefix (enum_entries 0 syms) str)
    as [[Hr Habs] | (k & sym & Hk & Hp & Hfirst)].
  { apply Forall_entries_texts. by rewrite enum_entries_fst. }
  - left. split; [done |].
    rewrite <- (enum_entries_fst 0 syms). by apply Forall_fmap.
  - right. rewrite enum_entries_lookup in Hk.
    destruct (syms !! k) as [sym0 |] eqn:Hsk; [| discriminate].
    cbn in Hk. injection Hk as -> Hr.
    exists k, sym. split; [lia |]. split; [done |]. split; [done |].
    intros j sym' Hj Hsj. apply (Hfirst j (sym', 0 + Z.of_nat j)); [done |].
    by rewrite enum_entries_lookup, Hsj.
Qed.

(** The range [2, 5) of the sample interpreter, with texts "x", "xy" and
    "A": "xyz" gives offset 0, the offset of its prefix "x". *)
Lemma find_enum_first_prefix_witness :
  ∃ r, find_enum "xyz" (with_current_instruction 4 sample)
         = Some (r, with_current_instruction 4 sample) ∧
       ((r = -1 ∧
         Forall (λ sym, ¬ sym `prefix_of` String.list_ascii_of_string "xyz")
           [ [ "x" ]; [ "x"; "y" ]; [ "A" ] ]%char) ∨
        (∃ k sym,
           r = Z.of_nat k ∧
           [ [ "x" ]; [ "x"; "y" ]; [ "A" ] ]%char !! k = Some sym ∧
           sym `prefix_of` String.list_ascii_of_string "xyz" ∧
           ∀ j sym', (j < k)%nat →
                     [ [ "x" ]; [ "x"; "y" ]; [ "A" ] ]%char !! j = Some sym' →
                     ¬ sym' `prefix_of` String.list_ascii_of_string "xyz")).
Proof.
  apply (find_enum_first_prefix (with_current_instruction 4 sample) "xyz" 2
           [ [ "x" ]; [ "x"; "y" ]; [ "A" ] ]%char);
    try reflexivity; try (by vm_compute).
  repeat constructor; by vm_compute.
Defined.

(** X15. Over a well-formed region of key entries whose names have no NUL
    characters, [find_key] is defined, leaves the object as it was, and
    returns the target of the first entry whose name is a prefix of the
    string; it returns -1 when no entry's name is a prefix of the string. *)
Theorem find_key_first_prefix (s : FromJsonObjectSchema) (str : string)
    (entries : list (list ascii * Z)) :
  vectors_fit s →
  0 ≤ current_instruction_ s →
  current_instruction_ s + Z.of_nat (List.length entries) < int64_max →
  argument1 s = Some (Z.of_nat (List.length entries), s) →
  key_entries_from s (current_instruction_ s + 1) entries →
  Forall (λ e, Forall (λ c, uchar c ≠ 0) e.1) entries →
  ∃ r, find_key str s = Some (r, s) ∧
       ((r = -1 ∧
         Forall (λ e, ¬ e.1 `prefix_of` String.list_ascii_of_string str)
           entries) ∨
        (∃ k sym,
           entries !! k = Some (sym, r) ∧
           sym `prefix_of` String.list_ascii_of_string str ∧
           ∀ j e, (j < k)%nat → entries !! j = Some e →
                  ¬ e.1 `prefix_of` String.list_ascii_of_string str)).
Proof.
  intros Hfit Hcur Hmax Ha1 Hentries Hnul.
  eexists. split; [by apply (find_key_spec s str entries) |].
  by apply first_accepted_first_prefix.
Qed.

(** The key region of the sample interpreter: "xyz" gives 7, the target of
    its prefix "x". *)
Lemma find_key_first_prefix_witness :
  ∃ r, find_key "xyz" sample_record = Some (r, sample_record) ∧
       ((r = -1 ∧
         Forall (λ e, ¬ e.1 `prefix_of` String.list_ascii_of_string "xyz")
           [ ([ "x" ]%char, 7); ([ "x"; "y" ]%char, 9) ]) ∨
        (∃ k sym,
           [ ([ "x" ]%char, 7); ([ "x"; "y" ]%char, 9) ] !! k
             = Some (sym, r) ∧
           sym `prefix_of` String.list_ascii_of_string "xyz" ∧
           ∀ j e, (j < k)%nat →
                  [ ([ "x" ]%char, 7); ([ "x"; "y" ]%char, 9) ] !! j = Some e →
                  ¬ e.1 `prefix_of` String.list_ascii_of_string "xyz")).
Proof.
  apply (find_key_first_prefix sample_record "xyz"
           [ ([ "x" ]%char, 7); ([ "x"; "y" ]%char, 9) ]);
    try reflexivity; try (by vm_compute).
  - cbn [key_entries_from]. repeat split; try reflexivity.
    + exists 2. split; reflexivity.
    + exists 3. split; reflexivity.
  - repeat constructor; by vm_compute.
Defined.

(** ** Writes in a row *)

Lemma buffer_eta {T : Type} (b : GrowableBuffer T) : Buffer (elements b) = b.
Proof. by destruct b. Qed.

Lemma vec_at_lookup {A : Type} (v : list A) (i : Z) (x : A) :
  vec_at v i = Some x → v !! Z.to_nat (to_size_t i) = Some x.
Proof. unfold vec_at. intros H. by apply at_Some in H as [_ H]. Qed.

Lemma write_each_uint8_run (index : Z) (values : list Z)
    (s : FromJsonObjectSchema) (b : GrowableBuffer uint8_t) :
  vec_at (buffers_uint8_ s) index = Some b →
  write_each_uint8 index values s
  = Some (tt, with_buffers_uint8
                (<[Z.to_nat (to_size_t index) :=
                     Buffer (elements b ++ values)]> (buffers_uint8_ s)) s).
Proof.
  revert s b. induction values as [| v rest IH]; intros s b Hb.
  - cbn [write_each_uint8]. rewrite app_nil_r, buffer_eta.
    rewrite list_insert_id by (by apply vec_at_lookup). by destruct s.
  - cbn [write_each_uint8]. unfold mbind, M_bind.
    destruct (write_uint8_run s index v b Hb) as (bs & Hset & Hrun).
    rewrite Hrun.
    rewrite (IH _ (GrowableBuffer.append b v))
      by (apply (vec_at_vec_set_eq _ _ _ _ Hset)).
    rewrite (vec_set_defined _ _ _ _ Hb) in Hset. injection Hset as <-.
    cbn. rewrite list_insert_insert_eq, <- app_assoc. reflexivity.
Qed.

(** X16. [write_many_uint8 index n values], with [n] bytes available at
    [values], leaves the object as [n] calls of [write_uint8] on the first
    [n] bytes in order do: the buffer [index] has these bytes appended.
    With [n = 0] the object is left as it was. *)
Theorem write_many_uint8_as_single_writes (index n : Z) (values : list Z)
    (s : FromJsonObjectSchema) (b : GrowableBuffer uint8_t) :
  vec_at (buffers_uint8_ s) index = Some b →
  0 ≤ n ≤ Z.of_nat (List.length values) →
  n ≤ int64_max →
  write_many_uint8 index n values s
    = write_each_uint8 index (take (Z.to_nat n) values) s ∧
  ∃ s', write_many_uint8 index n values s = Some (tt, s') ∧
        vec_at (buffers_uint8_ s') index
          = Some (Buffer (elements b ++ take (Z.to_nat n) values)) ∧
        (n = 0 → s' = s).
Proof.
  intros Hb Hn Hmax.
  assert (Hcast : to_size_t n = n).
  { unfold to_size_t. apply Z.mod_small. unfold int64_max in Hmax. lia. }
  assert (Hrun : write_many_uint8 index n values s
                 = Some (tt, with_buffers_uint8
                               (<[Z.to_nat (to_size_t index) :=
                                    Buffer (elements b
                                            ++ take (Z.to_nat n) values)]>
                                  (buffers_uint8_ s)) s)).
  { unfold write_many_uint8. run_method. rewrite Hb.
    unfold GrowableBuffer.extend. rewrite Hcast, bool_decide_true by done.
    by rewrite (vec_set_defined _ _ _ _ Hb). }
  split; [by rewrite Hrun, (write_each_uint8_run _ _ _ _ Hb) |].
  eexists. split; [exact Hrun |]. cbn. split.
  - apply (vec_at_vec_set_eq (buffers_uint8_ s) _ index).
    by apply (vec_set_defined _ _ _ _ Hb).
  - intros ->. cbn. rewrite app_nil_r, buffer_eta.
    rewrite list_insert_id by (by apply vec_at_lookup). by destruct s.
Qed.

(** Two of three bytes on the sample interpreter, whose buffer 0 holds
    [1; 255]. *)
Lemma write_many_uint8_as_single_writes_witness :
  write_many_uint8 0 2 [ 7; 8; 9 ] sample
    = (write_uint8 0 7;; write_uint8 0 8;; mret tt) sample ∧
  ∃ s', write_many_uint8 0 2 [ 7; 8; 9 ] sample = Some (tt, s') ∧
        vec_at (buffers_uint8_ s') 0 = Some (Buffer [ 1; 255; 7; 8 ]).
Proof.
  destruct (write_many_uint8_as_single_writes 0 2 [ 7; 8; 9 ] sample
              (Buffer [ 1; 255 ]) eq_refl)
    as (Heach & s' & Hrun & Hbuf & _); try (by vm_compute).
  split; [exact Heach |]. exists s'. split; [exact Hrun | exact Hbuf].
Defined.

Lemma write_add_int64_run (s : FromJsonObjectSchema) (index x v : Z)
    (b : GrowableBuffer int64_t) :
  vec_at (buffers_int64_ s) index = Some b →
  GrowableBuffer.last b = Some v →
  write_add_int64 index x s
  = Some (tt, with_buffers_int64
                (<[Z.to_nat (to_size_t index) :=
                     GrowableBuffer.append b (add64 v x)]>
                   (buffers_int64_ s)) s).
Proof.
  intros Hb Hv. change (@GrowableBuffer.last Z b = Some v) in Hv.
  unfold write_add_int64. run_method. rewrite Hb.
  cbv beta iota. rewrite Hv.
  destruct (vec_set (buffers_int64_ s) index _) as [bs |] eqn:Hset;
    rewrite (vec_set_defined _ _ _ _ Hb) in Hset; by simplify_eq.
Qed.

Lemma write_add_each_run (index : Z) (deltas : list Z)
    (s : FromJsonObjectSchema) (l : list Z) (v : Z) :
  vec_at (buffers_int64_ s) index = Some (Buffer (l ++ [v])) →
  Forall is_int64 (running_sums v deltas) →
  write_add_each index deltas s
  = Some (tt, with_buffers_int64
                (<[Z.to_nat (to_size_t index) :=
                     @Buffer int64_t (l ++ v :: running_sums v deltas)]>
                   (buffers_int64_ s)) s).
Proof.
  revert s l v. induction deltas as [| d rest IH]; intros s l v Hb Hsums.
  - cbn [write_add_each running_sums].
    rewrite list_insert_id by (by apply vec_at_lookup). by destruct s.
  - cbn [write_add_each running_sums] in *. unfold mbind, M_bind.
    inversion Hsums as [| ? ? Hsum Hrest]; subst.
    rewrite (write_add_int64_run s index d v _ Hb (last_snoc l v)).
    unfold add64. rewrite (to_int64_id _ Hsum).
    rewrite (IH _ (l ++ [v]) (v + d)).
    + cbn. rewrite list_insert_insert_eq, <- app_assoc. reflexivity.
    + cbn. apply (vec_at_vec_set_eq (buffers_int64_ s) _ index).
      by apply (vec_set_defined _ _ _ _ Hb).
    + done.
Qed.

(** X17. The offset idiom.  On an int64 buffer whose contents end in [v],
    [write_add_int64] of the deltas [d1; d2; ...] in turn appends the
    running totals [v + d1; v + d1 + d2; ...], as long as each total is an
    [int64_t]; the elements before are left as they were. *)
Theorem write_add_int64_builds_running_totals (index : Z) (deltas : list Z)
    (s : FromJsonObjectSchema) (l : list Z) (v : Z) :
  vec_at (buffers_int64_ s) index = Some (Buffer (l ++ [v])) →
  Forall is_int64 (running_sums v deltas) →
  ∃ s', write_add_each index deltas s = Some (tt, s') ∧
        vec_at (buffers_int64_ s') index
          = Some (Buffer (l ++ v :: running_sums v deltas)).
Proof.
  intros Hb Hsums. eexists.
  split; [by apply (write_add_each_run index deltas s l v) |]. cbn.
  apply (vec_at_vec_set_eq (buffers_int64_ s) _ index).
  by apply (vec_set_defined _ _ _ _ Hb).
Qed.

(** An empty list and then a list of one item, from the start offset 0:
    the offsets become [0; 0; 1]. *)
Lemma write_add_int64_builds_running_totals_witness :
  ∃ s', write_add_each 0 [ 0; 1 ]
          (with_buffers_int64 [ Buffer [ 0 ] ] sample) = Some (tt, s') ∧
        vec_at (buffers_int64_ s') 0 = Some (Buffer [ 0; 0; 1 ]).
Proof.
  apply (write_add_int64_builds_running_totals 0 [ 0; 1 ]
           (with_buffers_int64 [ Buffer [ 0 ] ] sample) [] 0);
    [reflexivity |].
  repeat constructor; by vm_compute.
Defined.

(** ** Writes and the reported counts *)

Lemma nbytes_append {T : Type} `{Primitive T} (b : GrowableBuffer T) (x : T) :
  GrowableBuffer.nbytes (GrowableBuffer.append b x)
  = GrowableBuffer.nbytes b + sizeof.
Proof.
  unfold GrowableBuffer.nbytes, GrowableBuffer.append. cbn.
  rewrite length_app. cbn. lia.
Qed.

Lemma Forall_vec_at {A : Type} (P : A → Prop) (v : list A) (i : Z) (x : A) :
  Forall P v → vec_at v i = Some x → P x.
Proof.
  intros HP Hx. apply vec_at_lookup in Hx.
  by eapply Forall_lookup_1.
Qed.

Lemma items_after_append (n w : Z) :
  0 ≤ n → 0 < w → n + w ≤ int64_max →
  to_int64 (n + w) = n + w ∧ to_int64 n = n.
Proof.
  intros Hn Hw Hmax.
  split; apply to_int64_id; unfold is_int64, int64_min; lia.
Qed.

(** X18. A write that appends one element to the buffer an output is bound
    to makes [output_num_items] of that output one more than before: a
    [write_int8] or [write_uint8] for an int8 or uint8 output, a
    [write_int64], [write_uint64] or [write_add_int64] for an int64 output,
    a [write_float64] for a float64 output. *)
Theorem single_write_grows_count_by_one (i which n : Z) (d : dtype)
    (c : call) (s s' : FromJsonObjectSchema) (r : result) :
  vec_at (output_dtypes_ s) i = Some d →
  vec_at (output_which_ s) i = Some which →
  appends_one_to d which c = true →
  exec c s = Some (r, s') →
  buffers_fit s' →
  output_num_items i s = Some (n, s) →
  output_num_items i s' = Some (n + 1, s').
Proof.
  intros Hd Hw Hc Hrun (Hfit8 & Hfit64 & Hfitf) Hcount.
  destruct c; try discriminate Hc; destruct d; try discriminate Hc;
    cbn [appends_one_to] in Hc; apply Z.eqb_eq in Hc; subst index;
    cbn [exec] in Hrun; unfold_methods_in Hrun; invert_run Hrun;
    injection Hrun as _ <-;
    unfold output_num_items in *;
    cbv [mbind M_bind mret M_ret defined this] in *; cbn in *;
    rewrite Hd, Hw in *; cbv beta iota in *;
    match goal with
    | Hset : vec_set _ _ ?b' = Some ?bs, Hb : vec_at _ which = Some ?b |- _ =>
      rewrite Hb in Hcount; cbv beta iota in Hcount;
      pose proof (vec_at_vec_set_eq _ _ _ _ Hset) as Hnew;
      rewrite Hnew; cbv beta iota;
      first [ pose proof (Forall_vec_at _ _ _ _ Hfit8 Hnew) as Hmax
            | pose proof (Forall_vec_at _ _ _ _ Hfit64 Hnew) as Hmax
            | pose proof (Forall_vec_at _ _ _ _ Hfitf Hnew) as Hmax ];
      cbv beta in Hmax
    end;
    injection Hcount as <-;
    unfold GrowableBuffer.nbytes, GrowableBuffer.append in *; cbn in *;
    unfold uint8_t, int64_t in *;
    rewrite length_app in *; cbn in *;
    match goal with
    | |- context [to_int64 (Z.of_nat (?len + 1)%nat * ?w)] =>
      destruct (items_after_append (Z.of_nat len * w) w) as [Ha Hb'];
        [lia | lia | lia |];
      replace (Z.of_nat (len + 1)%nat * w) with (Z.of_nat len * w + w) by lia;
      rewrite Ha, Hb'
    end;
    rewrite ?Z.quot_div_nonneg by lia;
    try match goal with
    | |- context [(?a * 8 + 8) / 8] =>
      replace (a * 8 + 8) with ((a + 1) * 8) by lia
    end;
    rewrite ?Z.div_mul by lia;
    do 2 f_equal; lia.
Qed.

(** Output "x" of the sample interpreter, an int64 output on buffer 0,
    reports 2 items; after [write_int64 0 7] it reports 3. *)
Lemma single_write_grows_count_by_one_witness :
  ∃ s', exec (call_write_int64 0 7) sample = Some (result_void, s') ∧
        output_num_items 0 sample = Some (2, sample) ∧
        output_num_items 0 s' = Some (2 + 1, s').
Proof.
  eexists. split; [reflexivity |]. split; [reflexivity |].
  apply (single_write_grows_count_by_one 0 0 2 dtype_int64
           (call_write_int64 0 7) sample _ result_void);
    try reflexivity.
  repeat split; repeat constructor; by vm_compute.
Defined.

(** ** Filling the caller's memory *)

Lemma le_bytes_length (n : nat) (z : Z) : List.length (le_bytes n z) = n.
Proof. revert z. induction n as [| n IH]; intros z; cbn; [done |]. by rewrite IH. Qed.

Lemma contents_bytes_length {T : Type} `{Primitive T} (b : GrowableBuffer T)
    (k : nat) :
  (∀ x, List.length (object_bytes x) = k) →
  List.length (GrowableBuffer.contents_bytes b)
  = (List.length (elements b) * k)%nat.
Proof.
  intros Hk. unfold GrowableBuffer.contents_bytes.
  induction (elements b) as [| x l IH]; cbn; [done |].
  rewrite length_app, Hk, IH. lia.
Qed.

Lemma concatenate_fits {T : Type} `{Primitive T} (b : GrowableBuffer T)
    (ext : list Z) :
  (List.length (GrowableBuffer.contents_bytes b) ≤ List.length ext)%nat →
  ∃ ext',
    GrowableBuffer.concatenate b ext = Some ext' ∧
    List.length ext' = List.length ext ∧
    drop (List.length (GrowableBuffer.contents_bytes b)) ext'
      = drop (List.length (GrowableBuffer.contents_bytes b)) ext.
Proof.
  intros Hfits. unfold GrowableBuffer.concatenate. cbv zeta.
  rewrite bool_decide_true by done. eexists. split; [done |]. split.
  - rewrite length_app, length_drop. lia.
  - by rewrite drop_app_length.
Qed.

(** X19. A destination sized from the reported count is enough.  When
    [output_num_items i] reports [n] and the caller's memory holds at least
    [n] items of the output's kind (1 byte each for int8 and uint8, 8 for
    int64 and float64), [output_fill i] is defined, leaves the object as it
    was, returns a memory of the same size, and leaves every byte past the
    first [n] items as it was. *)
Theorem output_fill_fits_reported_count (i n : Z) (d : dtype)
    (ext : list Z) (s : FromJsonObjectSchema) :
  vec_at (output_dtypes_ s) i = Some d →
  buffers_fit s →
  output_num_items i s = Some (n, s) →
  n * item_width d ≤ Z.of_nat (List.length ext) →
  ∃ ext',
    output_fill i ext s = Some (ext', s) ∧
    List.length ext' = List.length ext ∧
    drop (Z.to_nat (n * item_width d)) ext'
      = drop (Z.to_nat (n * item_width d)) ext.
Proof.
  intros Hd (Hfit8 & Hfit64 & Hfitf) Hcount Hroom.
  unfold output_num_items, output_fill in *.
  cbv [mbind M_bind mret M_ret defined this] in *.
  rewrite Hd in *. cbv beta iota in *.
  destruct d; cbn [item_width] in *;
    try (injection Hcount as <-; by exists ext);
    destruct (vec_at (output_which_ s) i) as [which |]; try discriminate;
    cbv beta iota in *;
    match type of Hcount with
    | context [vec_at ?bufs which] =>
      destruct (vec_at bufs which) as [b |] eqn:Hb; try discriminate
    end;
    cbv beta iota in *; injection Hcount as <-;
    first [ pose proof (Forall_vec_at _ _ _ _ Hfit8 Hb) as Hmax;
            pose proof (contents_bytes_length b 1 (le_bytes_length 1))
              as Hlen
          | pose proof (Forall_vec_at _ _ _ _ Hfit64 Hb) as Hmax;
            pose proof (contents_bytes_length b 8 (le_bytes_length 8))
              as Hlen
          | pose proof (Forall_vec_at _ _ _ _ Hfitf Hb) as Hmax;
            pose proof (contents_bytes_length b 8
                          (λ x, le_bytes_length 8 (double_bits x))) as Hlen ];
    cbv beta in Hmax;
    (destruct (nbytes_cast b) as [Hcast Hpos]; [by vm_compute | done |]);
    rewrite Hcast in *; rewrite ?Z.quot_div_nonneg in * by lia;
    unfold GrowableBuffer.nbytes in *; cbn [sizeof uint8_primitive
      int64_primitive double_primitive] in *;
    rewrite ?Z.div_mul in * by lia;
    (destruct (concatenate_fits b ext) as (ext' & Hrun & Hsize & Hrest);
       [lia |]);
    rewrite Hrun; cbv beta iota; exists ext';
    (split; [done |]); (split; [done |]);
    match goal with
    | |- drop ?k _ = drop ?k _ =>
      replace k with (List.length (GrowableBuffer.contents_bytes b)) by lia
    end; done.
Qed.

(** Output "x" of the sample interpreter reports 2 items; a destination of
    17 bytes is filled and keeps its last byte. *)
Lemma output_fill_fits_reported_count_witness :
  ∃ ext',
    output_fill 0 (replicate 17 170) sample = Some (ext', sample) ∧
    List.length ext' = 17%nat ∧
    drop 16 ext' = [ 170 ].
Proof.
  destruct (output_fill_fits_reported_count 0 2 dtype_int64
              (replicate 17 170) sample)
    as (ext' & Hrun & Hsize & Hrest); try reflexivity.
  - repeat split; repeat constructor; by vm_compute.
  - by vm_compute.
  - exists ext'. split; [exact Hrun |]. split; [exact Hsize | exact Hrest].
Defined.
